(** * Random over-sampling and balanced batch generation (imbalanced-learn)

    Shallow embedding of
      - [imblearn/over_sampling/_random_over_sampler.py]
        ([RandomOverSampler._fit_resample], with the smoothed bootstrap),
      - [imblearn/over_sampling/random_over_sampler.py]
        (the older [RandomOverSampler._sample]),
      - [imblearn/keras/_generator.py] ([BalancedBatchGenerator]).

    Python floats are idealised as real numbers, class labels are integers,
    row indices are naturals.  Exceptions are values of [exn]; attribute and
    generator mutation is explicit state passing through the monad [M]. *)

From Stdlib Require Import List ZArith Reals Lra Lia Bool Permutation.
Import ListNotations.

Set Implicit Arguments.

(** ** Exceptions *)

Inductive exn : Type :=
| ValueError_missing_shrinkage  (* _random_over_sampler.py, line 135 *)
| ValueError_empty_population   (* numpy: choice / randint on no element *)
| ValueError_return_indices     (* _generator.py, line 111 *)
| ZeroDivisionError
| KeyError
| IndexError
| UnboundLocalError             (* _generator.py, line 144 *)
| ShapeMismatchError
| InvalidSamplingStrategy
| SamplerError.

(** ** State and exception monad

    A raised exception keeps the state reached so far, as in Python. *)

Definition M (S A : Type) : Type := S -> (exn + A) * S.

Definition ret {S A} (a : A) : M S A := fun s => (inr a, s).
Definition raise {S A} (e : exn) : M S A := fun s => (inl e, s).
Definition bind {S A B} (m : M S A) (k : A -> M S B) : M S B :=
  fun s => match m s with
           | (inl e, s') => (inl e, s')
           | (inr a, s') => k a s'
           end.
Definition gets {S A} (f : S -> A) : M S A := fun s => (inr (f s), s).
Definition modify {S} (f : S -> S) : M S unit := fun s => (inr tt, f s).
Definition lift_exn {S A} (r : exn + A) : M S A := fun s => (r, s).

Declare Scope monad_scope.
Delimit Scope monad_scope with monad.
Notation "x <- m ;; k" := (bind m (fun x => k))
  (at level 61, m at next level, right associativity) : monad_scope.
Notation "' p <- m ;; k" := (bind m (fun x => let p := x in k))
  (at level 61, p pattern, m at next level, right associativity) : monad_scope.
Notation "m ;;; k" := (bind m (fun _ => k))
  (at level 61, right associativity) : monad_scope.
Open Scope monad_scope.

(** ** Arrays *)

Inductive storage : Type := Dense | CSR | CSC.

Definition issparse_fmt (f : storage) : bool :=
  match f with Dense => false | _ => true end.

(** A two-dimensional array: storage format, column count (kept by numpy even
    for an array without rows) and the rows. *)
Record matrix : Type := mkMatrix {
  format : storage;
  n_cols : nat;
  rows : list (list R)
}.

Definition shape (X : matrix) : nat * nat := (length (rows X), n_cols X).

Definition well_formed (X : matrix) : Prop :=
  Forall (fun r => length r = n_cols X) (rows X).

(** [np.flatnonzero (y == class_sample)] *)
Fixpoint flatnonzero_from (i : nat) (y : list Z) (c : Z) : list nat :=
  match y with
  | [] => []
  | l :: y' => if Z.eqb l c then i :: flatnonzero_from (S i) y' c
               else flatnonzero_from (S i) y' c
  end.
Definition flatnonzero_eq (y : list Z) (c : Z) : list nat := flatnonzero_from 0 y c.

(** [_safe_indexing (a, indices)]: rows of [a] at [indices]; an index out of
    range raises. *)
Fixpoint _safe_indexing {A} (a : list A) (indices : list nat) : exn + list A :=
  match indices with
  | [] => inr []
  | i :: rest =>
      match nth_error a i with
      | None => inl IndexError
      | Some x =>
          match _safe_indexing a rest with
          | inl e => inl e
          | inr xs => inr (x :: xs)
          end
      end
  end.

(** ** Numeric kernels of the smoothed bootstrap *)

Open Scope R_scope.

Definition Rsum (l : list R) : R := fold_right Rplus 0 l.
Definition mean (l : list R) : R := Rsum l / INR (length l).

(** Population variance and standard deviation ([np.std], [ddof = 0]; the
    variance returned by [mean_variance_axis]). *)
Definition variance (l : list R) : R :=
  mean (map (fun x => (x - mean l) * (x - mean l)) l).
Definition std (l : list R) : R := sqrt (variance l).

Definition column (j : nat) (rs : list (list R)) : list R :=
  map (fun r => nth j r 0) rs.

(** [np.std (X_class, axis=0)] *)
Definition np_std_axis0 (f : nat) (rs : list (list R)) : list R :=
  map (fun j => std (column j rs)) (seq 0 f).

(** [np.sqrt (mean_variance_axis (X_class, axis=0)[1])] *)
Definition sparse_scale_axis0 (f : nat) (rs : list (list R)) : list R :=
  map (fun j => sqrt (variance (column j rs))) (seq 0 f).

(** [np.diagflat v] *)
Definition diagflat (v : list R) : list (list R) :=
  map (fun i => map (fun j => if Nat.eqb i j then nth i v 0 else 0)
                    (seq 0 (length v)))
      (seq 0 (length v)).

Definition dot_vec (u v : list R) : R :=
  Rsum (map (fun p => fst p * snd p) (combine u v)).

(** [A.dot (B)] for [B] with [f] columns *)
Definition dot (f : nat) (A B : list (list R)) : list (list R) :=
  map (fun a => map (fun j => dot_vec a (column j B)) (seq 0 f)) A.

Definition vec_add (u v : list R) : list R :=
  map (fun p => fst p + snd p) (combine u v).
Definition mat_add (A B : list (list R)) : list (list R) :=
  map (fun p => vec_add (fst p) (snd p)) (combine A B).

(** [(4 / ((n_features + 2) * n_samples)) ** (1 / (n_features + 4))]; the
    divisor is a Python integer, so a zero divisor raises. *)
Definition smoothing_constant (n_samples n_features : nat) : exn + R :=
  if Nat.eqb ((n_features + 2) * n_samples) 0 then inl ZeroDivisionError
  else inr (Rpower (4 / INR ((n_features + 2) * n_samples))
                   (1 / INR (n_features + 4))).

Close Scope R_scope.

(** ** The random source *)

(** Operations of [numpy.random.RandomState] used by the samplers.  Each takes
    the generator state and returns the draw with the advanced state. *)
Class RandomState : Type := {
  RS : Type;
  (** [RandomState (seed)] *)
  rs_seed : Z -> RS;
  (** [choice (a, size, replace=True)] on a population [a] *)
  rs_choice : RS -> list nat -> nat -> list nat * RS;
  (** [randint (low=0, high, size)] *)
  rs_randint : RS -> nat -> nat -> list nat * RS;
  (** [randn (d0, d1)] *)
  rs_randn : RS -> nat -> nat -> list (list R) * RS;
  (** [shuffle (x)], in place *)
  rs_shuffle : RS -> list nat -> list nat * RS
}.

Class RandomStateLaws (rs : RandomState) : Prop := {
  choice_length : forall g a k, a <> [] -> length (fst (rs_choice g a k)) = k;
  choice_In : forall g a k i, In i (fst (rs_choice g a k)) -> In i a;
  randint_length : forall g high k,
      (0 < high)%nat -> length (fst (rs_randint g high k)) = k;
  randint_lt : forall g high k i,
      In i (fst (rs_randint g high k)) -> (i < high)%nat;
  randn_rows : forall g k f, length (fst (rs_randn g k f)) = k;
  randn_cols : forall g k f,
      Forall (fun r => length r = f) (fst (rs_randn g k f));
  shuffle_Permutation : forall g l, Permutation l (fst (rs_shuffle g l))
}.

(** ** Generator objects and the sampler's attributes *)

(** The [random_state] constructor argument: [None], an integer seed, or a
    [RandomState] instance owned by the caller. *)
Inductive random_state_arg : Type :=
| RS_None
| RS_int (seed : Z)
| RS_instance.

(** The generator object a local variable [random_state] is bound to. *)
Inductive rs_ref : Type := Ref_global | Ref_local | Ref_caller.

Inductive shrinkage_arg : Type :=
| Shrinkage_real (r : R)
| Shrinkage_dict (d : list (Z * R)).

(** The [sampling_strategy] constructor argument: the keyword ['auto'] or an
    explicit dictionary of samples to add per class. *)
Inductive sampling_strategy_arg : Type :=
| Strategy_auto
| Strategy_dict (d : list (Z * nat)).

(** Attributes of a [RandomOverSampler] instance.  Dictionaries are association
    lists in iteration order. *)
Record RandomOverSampler : Type := mkROS {
  sampling_strategy : sampling_strategy_arg;
  random_state : random_state_arg;
  smoothed_bootstrap : bool;
  shrinkage : shrinkage_arg;
  sampling_strategy_ : list (Z * nat);
  shrinkage_ : option (list (Z * R));
  sample_indices_ : option (list nat)
}.

Definition set_sampling_strategy_ (d : list (Z * nat)) (o : RandomOverSampler) :=
  mkROS (sampling_strategy o) (random_state o) (smoothed_bootstrap o)
        (shrinkage o) d (shrinkage_ o) (sample_indices_ o).
Definition set_shrinkage_ (d : list (Z * R)) (o : RandomOverSampler) :=
  mkROS (sampling_strategy o) (random_state o) (smoothed_bootstrap o)
        (shrinkage o) (sampling_strategy_ o) (Some d) (sample_indices_ o).
Definition set_sample_indices_ (l : list nat) (o : RandomOverSampler) :=
  mkROS (sampling_strategy o) (random_state o) (smoothed_bootstrap o)
        (shrinkage o) (sampling_strategy_ o) (shrinkage_ o) (Some l).

Definition keys {V} (d : list (Z * V)) : list Z := map fst d.

Fixpoint dict_get {V} (d : list (Z * V)) (k : Z) : option V :=
  match d with
  | [] => None
  | (k', v) :: d' => if Z.eqb k' k then Some v else dict_get d' k
  end.

Definition mem (k : Z) (l : list Z) : bool := existsb (Z.eqb k) l.

(** [a.keys () - b.keys ()] *)
Definition keys_difference {V W} (a : list (Z * V)) (b : list (Z * W)) : list Z :=
  filter (fun k => negb (mem k (keys b))) (keys a).

(** [collections.Counter (y)], kept in ascending class order. *)
Fixpoint count_insert (c : Z) (d : list (Z * nat)) : list (Z * nat) :=
  match d with
  | [] => [(c, 1%nat)]
  | (c', n) :: d' =>
      if Z.eqb c c' then (c', S n) :: d'
      else if Z.ltb c c' then (c, 1%nat) :: (c', n) :: d'
      else (c', n) :: count_insert c d'
  end.
Definition target_stats (y : list Z) : list (Z * nat) :=
  fold_right count_insert [] y.

Definition max_count (d : list (Z * nat)) : nat :=
  fold_right Nat.max 0%nat (map snd d).

(** Modelled from the spec: the sampling-strategy resolver
    ([check_sampling_strategy], whose module is not among the sources), for
    over-sampling.  The named strategy gives every observed class, in ascending
    class order, the number of rows it lacks to reach the majority count; an
    explicit mapping is used as it is once every named class is observed. *)
Definition check_sampling_strategy (arg : sampling_strategy_arg) (y : list Z)
  : exn + list (Z * nat) :=
  match arg with
  | Strategy_auto =>
      let stats := target_stats y in
      inr (map (fun cn => (fst cn, max_count stats - snd cn)%nat) stats)
  | Strategy_dict d =>
      if forallb (fun c => mem c y) (keys d) then inr d
      else inl InvalidSamplingStrategy
  end.

Section Samplers.

Context {rs : RandomState}.

(** The generator objects reachable by a run: the global singleton
    [np.random], the caller's instance, and the object allocated last by
    [check_random_state] for an integer seed. *)
Record Heap : Type := mkHeap {
  np_random : RS;
  caller_rs : RS;
  local_rs : RS
}.

Record World (O : Type) : Type := mkWorld {
  heap : Heap;
  self : O
}.

Definition read_rs (r : rs_ref) (h : Heap) : RS :=
  match r with
  | Ref_global => np_random h
  | Ref_caller => caller_rs h
  | Ref_local => local_rs h
  end.

Definition write_rs (r : rs_ref) (g : RS) (h : Heap) : Heap :=
  match r with
  | Ref_global => mkHeap g (caller_rs h) (local_rs h)
  | Ref_caller => mkHeap (np_random h) g (local_rs h)
  | Ref_local => mkHeap (np_random h) (caller_rs h) g
  end.

Definition draw {O A} (r : rs_ref) (op : RS -> A * RS) : M (World O) A :=
  fun w => let (a, g) := op (read_rs r (heap w)) in
           (inr a, mkWorld (write_rs r g (heap w)) (self w)).

Definition update_self {O} (f : O -> O) : M (World O) unit :=
  modify (fun w => mkWorld (heap w) (f (self w))).

(** [sklearn.utils.check_random_state] *)
Definition check_random_state {O} (arg : random_state_arg) : M (World O) rs_ref :=
  match arg with
  | RS_None => ret Ref_global
  | RS_int seed =>
      modify (fun w => mkWorld (write_rs Ref_local (rs_seed seed) (heap w)) (self w)) ;;;
      ret Ref_local
  | RS_instance => ret Ref_caller
  end.

(** [random_state.choice (a, size=size, replace=True)] *)
Definition choice {O} (r : rs_ref) (a : list nat) (size : nat) : M (World O) (list nat) :=
  match a, size with
  | [], S _ => raise ValueError_empty_population
  | _, _ => draw r (fun g => rs_choice g a size)
  end.

(** [random_state.randint (low=0, high=high, size=size)]: an empty range
    raises only when a draw is asked for; with [size = 0] the result is the
    empty array. *)
Definition randint {O} (r : rs_ref) (high size : nat) : M (World O) (list nat) :=
  match high with
  | O => match size with
         | O => draw r (fun g => rs_randint g high size)
         | S _ => raise ValueError_empty_population
         end
  | S _ => draw r (fun g => rs_randint g high size)
  end.

(** *** [_random_over_sampler.py] *)

Definition ROS := World RandomOverSampler.

(** Lines 125-137: resolution of [shrinkage_]. *)
Definition resolve_shrinkage : M ROS unit :=
  sb <- gets (fun w => smoothed_bootstrap (self w)) ;;
  if sb then
    sh <- gets (fun w => shrinkage (self w)) ;;
    strategy <- gets (fun w => sampling_strategy_ (self w)) ;;
    match sh with
    | Shrinkage_real r =>
        update_self (set_shrinkage_ (map (fun kv => (fst kv, r)) strategy))
    | Shrinkage_dict d =>
        let missing_shrinkage_keys := keys_difference strategy d in
        match missing_shrinkage_keys with
        | _ :: _ => raise ValueError_missing_shrinkage
        | [] => update_self (set_shrinkage_ d)
        end
    end
  else ret tt.

(** [self.shrinkage_[class_sample]] *)
Definition shrinkage_of (class_sample : Z) : M ROS R :=
  d <- gets (fun w => shrinkage_ (self w)) ;;
  match d with
  | None => raise KeyError
  | Some d => match dict_get d class_sample with
              | None => raise KeyError
              | Some v => ret v
              end
  end.

Definition X_class_scale_of (X : matrix) (X_class : list (list R)) : list R :=
  if issparse_fmt (format X) then sparse_scale_axis0 (n_cols X) X_class
  else np_std_axis0 (n_cols X) X_class.

Definition smoothing_matrix_of (sh c : R) (X_class_scale : list R) : list (list R) :=
  diagflat (map (fun s => (sh * c * s)%R) X_class_scale).

(** Lines 144-174: one iteration of the loop over [sampling_strategy_]; returns
    [bootstrap_indices] and the blocks appended to [X_resampled] and
    [y_resampled]. *)
Definition resample_class (random_state : rs_ref) (X : matrix) (y : list Z)
    (class_sample : Z) (num_samples : nat) : M ROS (list nat * matrix * list Z) :=
  let target_class_indices := flatnonzero_eq y class_sample in
  bootstrap_indices <- choice random_state target_class_indices num_samples ;;
  sb <- gets (fun w => smoothed_bootstrap (self w)) ;;
  if sb then
    let '(n_samples, n_features) := shape X in
    c <- lift_exn (smoothing_constant n_samples n_features) ;;
    X_class <- lift_exn (_safe_indexing (rows X) target_class_indices) ;;
    let X_class_scale := X_class_scale_of X X_class in
    sh <- shrinkage_of class_sample ;;
    let smoothing_matrix := smoothing_matrix_of sh c X_class_scale in
    noise <- draw random_state (fun g => rs_randn g num_samples n_features) ;;
    X_boot <- lift_exn (_safe_indexing (rows X) bootstrap_indices) ;;
    let X_new := mat_add (dot n_features noise smoothing_matrix) X_boot in
    y_new <- lift_exn (_safe_indexing y bootstrap_indices) ;;
    ret (bootstrap_indices,
         mkMatrix (if issparse_fmt (format X) then CSR else Dense) n_features X_new,
         y_new)
  else
    X_new <- lift_exn (_safe_indexing (rows X) bootstrap_indices) ;;
    y_new <- lift_exn (_safe_indexing y bootstrap_indices) ;;
    ret (bootstrap_indices, mkMatrix (format X) (n_cols X) X_new, y_new).

(** The loop of lines 143-174 with its three accumulators. *)
Fixpoint resample_loop (random_state : rs_ref) (X : matrix) (y : list Z)
    (items : list (Z * nat))
    (acc : list matrix * list (list Z) * list nat)
  : M ROS (list matrix * list (list Z) * list nat) :=
  match items with
  | [] => ret acc
  | (class_sample, num_samples) :: items' =>
      r <- resample_class random_state X y class_sample num_samples ;;
      let '(bootstrap_indices, X_new, y_new) := r in
      let '(X_resampled, y_resampled, sample_indices) := acc in
      resample_loop random_state X y items'
        (X_resampled ++ [X_new], y_resampled ++ [y_new],
         sample_indices ++ bootstrap_indices)
  end.

(** [np.vstack] / [sparse.vstack (..., format=fmt)] *)
Definition vstack (fmt : storage) (f : nat) (blocks : list matrix) : matrix :=
  mkMatrix fmt f (concat (map rows blocks)).

Definition _fit_resample (X : matrix) (y : list Z) : M ROS (matrix * list Z) :=
  seed <- gets (fun w => random_state (self w)) ;;
  random_state <- check_random_state seed ;;
  resolve_shrinkage ;;;
  strategy <- gets (fun w => sampling_strategy_ (self w)) ;;
  r <- resample_loop random_state X y strategy
         ([X], [y], seq 0 (fst (shape X))) ;;
  let '(X_resampled, y_resampled, sample_indices) := r in
  update_self (set_sample_indices_ sample_indices) ;;;
  ret (vstack (format X) (n_cols X) X_resampled, concat y_resampled).

(** Modelled from the spec: the public [fit_resample] of the sampler's base
    class (not among the sources).  Row counts of features and labels must
    agree, the strategy is resolved and stored, then [_fit_resample] runs. *)
Definition fit_resample (X : matrix) (y : list Z) : M ROS (matrix * list Z) :=
  if Nat.eqb (length (rows X)) (length y) then
    arg <- gets (fun w => sampling_strategy (self w)) ;;
    s <- lift_exn (check_sampling_strategy arg y) ;;
    update_self (set_sampling_strategy_ s) ;;;
    _fit_resample X y
  else raise ShapeMismatchError.

End Samplers.

(** *** [random_over_sampler.py]: the older sampler *)

Module Legacy.
Section Legacy.

Context {rs : RandomState}.

Record RandomOverSampler : Type := mkROS {
  ratio_ : list (Z * nat);
  random_state : random_state_arg
}.

Definition count (y : list Z) (c : Z) : nat := count_occ Z.eq_dec y c.

(** Lines 106-116, with the two accumulators. *)
Fixpoint sample_loop (random_state : rs_ref) (X : matrix) (y : list Z)
    (items : list (Z * nat)) (acc : list (list R) * list Z)
  : M (World RandomOverSampler) (list (list R) * list Z) :=
  match items with
  | [] => ret acc
  | (class_sample, num_samples) :: items' =>
      index_samples <- randint random_state (count y class_sample) num_samples ;;
      X_class <- lift_exn (_safe_indexing (rows X) (flatnonzero_eq y class_sample)) ;;
      X_new <- lift_exn (_safe_indexing X_class index_samples) ;;
      y_class <- lift_exn (_safe_indexing y (flatnonzero_eq y class_sample)) ;;
      y_new <- lift_exn (_safe_indexing y_class index_samples) ;;
      sample_loop random_state X y items' (fst acc ++ X_new, snd acc ++ y_new)
  end.

Definition _sample (X : matrix) (y : list Z)
  : M (World RandomOverSampler) (matrix * list Z) :=
  o <- gets (fun w => self w) ;;
  random_state <- check_random_state (random_state o) ;;
  r <- sample_loop random_state X y (ratio_ o) (rows X, y) ;;
  ret (mkMatrix (format X) (n_cols X) (fst r), snd r).

End Legacy.
End Legacy.

(** *** [keras/_generator.py] *)

Module Keras.
Section Keras.

Context {rs : RandomState}.

(** A row-indexable array, dense or sparse. *)
Record array (A : Type) : Type := mkArray {
  issparse : bool;
  items : list A
}.

Definition toarray {A} (a : array A) : array A := mkArray false (items a).

(** [sklearn.utils.safe_indexing] *)
Definition safe_indexing {A} (a : array A) (indices : list nat) : exn + array A :=
  match _safe_indexing (items a) indices with
  | inl e => inl e
  | inr l => inr (mkArray (issparse a) l)
  end.

(** A sampler object: whether it has the attribute [return_indices], and the
    indices returned by its [fit_sample] when it draws from a given generator. *)
Record Sampler : Type := mkSampler {
  has_return_indices : bool;
  fit_sample : RS -> array (list R) -> array (list R) -> (exn + list nat) * RS
}.

Record BalancedBatchGenerator : Type := mkBBG {
  X : array (list R);
  y : array (list R);
  sample_weight : option (array R);
  sampler : option Sampler;
  batch_size : Z;
  sparse : bool;
  random_state : random_state_arg;
  sampler_ : option Sampler;
  indices_ : list nat
}.

Definition BBG := World BalancedBatchGenerator.

Definition set_sampler_ (s : Sampler) (o : BalancedBatchGenerator) :=
  mkBBG (X o) (y o) (sample_weight o) (sampler o) (batch_size o) (sparse o)
        (random_state o) (Some s) (indices_ o).
Definition set_indices_ (l : list nat) (o : BalancedBatchGenerator) :=
  mkBBG (X o) (y o) (sample_weight o) (sampler o) (batch_size o) (sparse o)
        (random_state o) (sampler_ o) l.

(** The default sampler, [RandomUnderSampler], is defined outside this module. *)
Variable RandomUnderSampler : Sampler.

Definition _sample : M BBG unit :=
  o <- gets (fun w => self w) ;;
  random_state <- check_random_state (random_state o) ;;
  s <- match sampler o with
       | None => ret RandomUnderSampler
       | Some s => if has_return_indices s then ret s
                   else raise ValueError_return_indices
       end ;;
  update_self (set_sampler_ s) ;;;
  r <- draw random_state (fun g => fit_sample s g (X o) (y o)) ;;
  indices <- lift_exn r ;;
  update_self (set_indices_ indices) ;;;
  shuffled <- draw random_state (fun g => rs_shuffle g indices) ;;
  update_self (set_indices_ shuffled).

Definition __init__ (X y : array (list R)) (sample_weight : option (array R))
    (sampler : option Sampler) (batch_size : Z) (sparse : bool)
    (random_state : random_state_arg) : M BBG unit :=
  update_self (fun _ => mkBBG X y sample_weight sampler batch_size sparse
                              random_state None []) ;;;
  _sample.

(** [int (self.indices_.size // self.batch_size)]: floor division. *)
Definition __len__ : M BBG Z :=
  o <- gets (fun w => self w) ;;
  if Z.eqb (batch_size o) 0 then raise ZeroDivisionError
  else ret (Z.of_nat (length (indices_ o)) / batch_size o)%Z.

(** A bound of a Python slice over a sequence of [len] items. *)
Definition slice_bound (len i : Z) : Z :=
  if (i <? 0)%Z then Z.max (i + len) 0 else Z.min i len.

(** [l[lo:hi]] *)
Definition py_slice {A} (l : list A) (lo hi : Z) : list A :=
  let len := Z.of_nat (length l) in
  let lo' := slice_bound len lo in
  let hi' := slice_bound len hi in
  firstn (Z.to_nat (hi' - lo')) (skipn (Z.to_nat lo') l).

Definition window (o : BalancedBatchGenerator) (index : Z) : list nat :=
  py_slice (indices_ o) (index * batch_size o) ((index + 1) * batch_size o).

Definition densify {A} (keep_sparse : bool) (a : array A) : array A :=
  if issparse a && negb keep_sparse then toarray a else a.

Definition __getitem__ (index : Z)
  : M BBG (array (list R) * array (list R) * option (array R)) :=
  o <- gets (fun w => self w) ;;
  X_resampled <- lift_exn (safe_indexing (X o) (window o index)) ;;
  let X_resampled := densify (sparse o) X_resampled in
  y_resampled <- lift_exn (safe_indexing (y o) (window o index)) ;;
  let y_resampled := densify (sparse o) y_resampled in
  match sample_weight o with
  | Some sw =>
      sample_weight_resampled <- lift_exn (safe_indexing sw (window o index)) ;;
      (* line 144 reads the local [sample_weight] before any assignment *)
      (if issparse sample_weight_resampled && negb (sparse o)
       then raise UnboundLocalError else ret tt) ;;;
      ret (X_resampled, y_resampled, Some sample_weight_resampled)
  | None => ret (X_resampled, y_resampled, None)
  end.

End Keras.
End Keras.

(** *** [under_sampling/base.py] *)

Module UnderSamplingBase.

Inductive sampling_type : Type := under_sampling | clean_sampling.

Section Base.

(** Arrays, hashes and ratios are kept abstract; [check_X_y],
    [check_target_type], [hash_X_y] and [check_ratio] are defined outside
    this module and taken by their signatures. *)
Variables Data Target Hash RatioArg RatioDict : Type.
Variable check_X_y : Data -> Target -> exn + Data * Target.
Variable check_target_type : Target -> exn + Target.
Variable hash_X_y : Data -> Target -> Hash * Hash.
Variable check_ratio : RatioArg -> Target -> sampling_type -> exn + RatioDict.

(** Attributes shared by [BaseUnderSampler] and [BaseCleaningSampler]. *)
Record Sampler : Type := mkSampler {
  ratio : RatioArg;
  random_state : random_state_arg;
  X_hash_ : option Hash;
  y_hash_ : option Hash;
  ratio_ : option RatioDict
}.




End Base.
End UnderSamplingBase.

(** ** A concrete random source

    A linear congruential generator, used to run the model on examples. *)

Module LCG.

Definition next (g : Z) : Z := ((1103515245 * g + 12345) mod 2147483648)%Z.

Fixpoint draws (g : Z) (high k : nat) : list nat * Z :=
  match k with
  | O => ([], g)
  | S k' => let g' := next g in
            let (l, g'') := draws g' high k' in
            (Z.to_nat (g' mod Z.of_nat high) :: l, g'')
  end.

Definition choice (g : Z) (a : list nat) (k : nat) : list nat * Z :=
  match a with
  | [] => ([], g)
  | _ => let (l, g') := draws g (length a) k in
         (map (fun i => nth i a 0%nat) l, g')
  end.

Definition randint (g : Z) (high k : nat) : list nat * Z :=
  match high with
  | O => ([], g)
  | _ => draws g high k
  end.

Fixpoint randn_row (g : Z) (f : nat) : list R * Z :=
  match f with
  | O => ([], g)
  | S f' => let g' := next g in
            let (r, g'') := randn_row g' f' in
            (IZR (g' mod 7 - 3) :: r, g'')
  end.

Fixpoint randn (g : Z) (k f : nat) : list (list R) * Z :=
  match k with
  | O => ([], g)
  | S k' => let (r, g') := randn_row g f in
            let (m, g'') := randn g' k' f in
            (r :: m, g'')
  end.

Definition shuffle (g : Z) (l : list nat) : list nat * Z :=
  let g' := next g in
  let r := Z.to_nat (g' mod Z.of_nat (length l)) in
  (skipn r l ++ firstn r l, g').

#[export] Instance random_state : RandomState := {
  RS := Z;
  rs_seed := fun seed => seed;
  rs_choice := choice;
  rs_randint := randint;
  rs_randn := randn;
  rs_shuffle := shuffle
}.

End LCG.

(** ** Statements of the specification, as predicates on the model *)

(** The smoothing constant as the specification words it, from the feature
    count and the row count of one class. *)
Definition spec_smoothing_constant (features class_rows : nat) : R :=
  Rpower (4 / ((INR features + 2) * INR class_rows)) (1 / (INR features + 4)).

(** Rows observed in class [c]. *)
Definition class_rows (y : list Z) (c : Z) : nat := length (flatnonzero_eq y c).

(** The output keeps the input rows, in their order, as its first rows. *)
Definition original_rows_first (X : matrix) (y : list Z) (out : matrix * list Z) : Prop :=
  firstn (length (rows X)) (rows (fst out)) = rows X /\
  firstn (length y) (snd out) = y.

(** Inputs [_fit_resample] is meant for: features and labels are row-aligned,
    every class of the resolved strategy is observed, and with the smoothed
    bootstrap a shrinkage mapping names every class of the strategy. *)
Definition valid_input (o : RandomOverSampler) (X : matrix) (y : list Z) : bool :=
  Nat.eqb (length (rows X)) (length y)
  && forallb (fun c => mem c y) (keys (sampling_strategy_ o))
  && (negb (smoothed_bootstrap o)
      || match shrinkage o with
         | Shrinkage_real _ => true
         | Shrinkage_dict d => forallb (fun c => mem c (keys d)) (keys (sampling_strategy_ o))
         end).

(** One block appended by the loop: its bootstrap indices, feature rows and
    labels. *)
Definition block : Type := list nat * matrix * list Z.
Definition block_indices (b : block) : list nat := fst (fst b).
Definition block_X (b : block) : matrix := snd (fst b).
Definition block_y (b : block) : list Z := snd b.

(** The feature rows of a smoothed block, from the quantities of lines
    152-167. *)
Definition smoothed_block (o : RandomOverSampler) (X : matrix) (y : list Z)
    (c : Z) (k : nat) (b : block) : Prop :=
  exists sh C X_class noise X_boot,
    (exists d, shrinkage_ o = Some d /\ dict_get d c = Some sh) /\
    smoothing_constant (length (rows X)) (n_cols X) = inr C /\
    _safe_indexing (rows X) (flatnonzero_eq y c) = inr X_class /\
    _safe_indexing (rows X) (block_indices b) = inr X_boot /\
    length noise = k /\
    Forall (fun r => length r = n_cols X) noise /\
    rows (block_X b) =
      mat_add (dot (n_cols X) noise
                 (smoothing_matrix_of sh C (X_class_scale_of X X_class)))
              X_boot.

(** What one iteration for class [c] with [k] samples appends. *)
Definition block_spec (o : RandomOverSampler) (X : matrix) (y : list Z)
    (ck : Z * nat) (b : block) : Prop :=
  length (block_indices b) = snd ck /\
  Forall (fun i => nth_error y i = Some (fst ck)) (block_indices b) /\
  block_y b = repeat (fst ck) (snd ck) /\
  length (rows (block_X b)) = snd ck /\
  if smoothed_bootstrap o then smoothed_block o X y (fst ck) (snd ck) b
  else _safe_indexing (rows X) (block_indices b) = inr (rows (block_X b)).

(** Two runs are related at a computation when they give the same outcome
    and leave states related by [Q]. *)
Definition rel_at {S A} (Q : S -> S -> Prop) (m : M S A) (s1 s2 : S) : Prop :=
  fst (m s1) = fst (m s2) /\ Q (snd (m s1)) (snd (m s2)).

(** The loop of [_fit_resample] reads the generator bound to [random_state],
    the flag [smoothed_bootstrap] and, when the flag is set, [shrinkage_];
    [agree r b] relates two states that coincide on these. *)
Definition agree {rs : RandomState} (r : rs_ref) (b : bool) (w1 w2 : ROS) : Prop :=
  read_rs r (heap w1) = read_rs r (heap w2) /\
  smoothed_bootstrap (self w1) = b /\
  smoothed_bootstrap (self w2) = b /\
  (b = true -> shrinkage_ (self w1) = shrinkage_ (self w2)).

(** Inputs the older [_sample] is meant for. *)
Definition legacy_valid_input (o : Legacy.RandomOverSampler) (X : matrix) (y : list Z) : bool :=
  Nat.eqb (length (rows X)) (length y)
  && forallb (fun c => mem c y) (keys (Legacy.ratio_ o)).

(** The reading of a final shuffle on one run: whatever the run returns is
    not the input rows followed by the appended blocks. *)
Definition rows_permuted_away {rs : RandomState} (X : matrix) (y : list Z) (w : ROS) : Prop :=
  forall out w', _fit_resample X y w = (inr out, w') -> ~ original_rows_first X y out.

(** The generator object [check_random_state] returns, and the state it
    leaves: an integer seed allocates a fresh generator. *)
Definition ref_of (arg : random_state_arg) : rs_ref :=
  match arg with
  | RS_None => Ref_global
  | RS_int _ => Ref_local
  | RS_instance => Ref_caller
  end.

Definition seeded {rs : RandomState} {O} (arg : random_state_arg) (w : World O) : World O :=
  match arg with
  | RS_int seed => mkWorld (write_rs Ref_local (rs_seed seed) (heap w)) (self w)
  | _ => w
  end.

(** Two sampler states give [_fit_resample] the same inputs: same resolved
    strategy, same [random_state] argument (and, unless it is an integer
    seed, the same state of the generator it names), same flag, and same
    [shrinkage] when the flag is set. *)
Definition same_run_inputs {rs : RandomState} (w1 w2 : ROS) : Prop :=
  random_state (self w1) = random_state (self w2) /\
  sampling_strategy_ (self w1) = sampling_strategy_ (self w2) /\
  smoothed_bootstrap (self w1) = smoothed_bootstrap (self w2) /\
  (smoothed_bootstrap (self w1) = true -> shrinkage (self w1) = shrinkage (self w2)) /\
  match random_state (self w1) with
  | RS_int _ => True
  | arg => read_rs (ref_of arg) (heap w1) = read_rs (ref_of arg) (heap w2)
  end.

(** Two runs have the same outcome: the same exception or the same returned
    arrays, and in the latter case the same stored [sample_indices_]. *)
Definition same_outcome {rs : RandomState} {A} (m : M ROS A) (w1 w2 : ROS) : Prop :=
  fst (m w1) = fst (m w2) /\
  (forall out, fst (m w1) = inr out ->
               sample_indices_ (self (snd (m w1))) = sample_indices_ (self (snd (m w2)))).

(** [Counter (y)] for labels drawn from two classes [lo < hi] with [a] and [b]
    rows. *)
Definition two_class_stats (lo hi : Z) (a b : nat) : list (Z * nat) :=
  match a with O => [] | _ => [(lo, a)] end ++
  match b with O => [] | _ => [(hi, b)] end.

(** The reading of the scenario's provenance: [sample_indices_] holds the 70
    added indices only, each of a row labelled [B]. *)
Definition provenance_of_added_rows_only {rs : RandomState}
    (y : list Z) (B : Z) (w' : ROS) : Prop :=
  exists si, sample_indices_ (self w') = Some si /\
             length si = 70%nat /\
             Forall (fun i => nth_error y i = Some B) si.

(** Rows the strategy adds to class [c]. *)
Definition added_for (c : Z) (strategy : list (Z * nat)) : nat :=
  list_sum (map snd (filter (fun ck => Z.eqb (fst ck) c) strategy)).

(** Every generator object other than [r] has the same state in [w'] as in
    [w]. *)
Definition frame {rs : RandomState} {O} (r : rs_ref) (w w' : World O) : Prop :=
  forall r', r' <> r -> read_rs r' (heap w') = read_rs r' (heap w).

(** The generator state at the start of each iteration of a
    smoothed-bootstrap loop that begins with the generator in state [g]: an
    iteration draws [choice] and then [randn] (lines 145 and 165). *)
Fixpoint smoothed_trace {rs : RandomState} (X : matrix) (y : list Z) (g : RS)
    (items : list (Z * nat)) : list (Z * nat * RS) :=
  match items with
  | [] => []
  | (c, k) :: items' =>
      let g1 := snd (rs_choice g (flatnonzero_eq y c) k) in
      let g2 := snd (rs_randn g1 k (n_cols X)) in
      (c, k, g) :: smoothed_trace X y g2 items'
  end.

(** The block that an iteration for class [c] with [k] samples appends when
    it starts with the generator in state [g], with shrinkage [sh] and
    smoothing constant [C]: the bootstrap indices are the draw of [choice],
    the noise is the draw of [randn] that follows it. *)
Definition smoothed_block_from {rs : RandomState} (X : matrix) (y : list Z)
    (sh C : R) (g : RS) (c : Z) (k : nat) (b : block) : Prop :=
  let target_class_indices := flatnonzero_eq y c in
  let bootstrap_indices := fst (rs_choice g target_class_indices k) in
  let noise := fst (rs_randn (snd (rs_choice g target_class_indices k)) k (n_cols X)) in
  block_indices b = bootstrap_indices /\
  exists X_class X_boot,
    _safe_indexing (rows X) target_class_indices = inr X_class /\
    _safe_indexing (rows X) bootstrap_indices = inr X_boot /\
    rows (block_X b) =
      mat_add (dot (n_cols X) noise
                 (smoothing_matrix_of sh C (X_class_scale_of X X_class)))
              X_boot.

(** ** Example data *)

Module Example.
Import LCG.

(** Three rows of one feature; class [0] has two rows, class [1] has one. *)
Definition X0 : matrix := mkMatrix Dense 1 [[1%R]; [2%R]; [3%R]].
Definition y0 : list Z := [0; 0; 1]%Z.
Definition heap0 : Heap := mkHeap 7%Z 11%Z 13%Z.

(** A sampler with the resolved strategy [{1: 1}] and seed [42]. *)
Definition sampler0 : RandomOverSampler :=
  mkROS (Strategy_dict [(1%Z, 1%nat)]) (RS_int 42) false (Shrinkage_real 1%R)
        [(1%Z, 1%nat)] None None.
Definition w0 : ROS := mkWorld heap0 sampler0.

(** The same with the smoothed bootstrap. *)
Definition sampler0_smoothed : RandomOverSampler :=
  mkROS (Strategy_dict [(1%Z, 1%nat)]) (RS_int 42) true (Shrinkage_real 1%R)
        [(1%Z, 1%nat)] None None.
Definition w0_smoothed : ROS := mkWorld heap0 sampler0_smoothed.

(** The smoothed bootstrap with a shrinkage mapping that omits class [1]. *)
Definition sampler0_missing : RandomOverSampler :=
  mkROS (Strategy_dict [(1%Z, 1%nat)]) (RS_int 42) true (Shrinkage_dict [(0%Z, 1%R)])
        [(1%Z, 1%nat)] None (Some [5%nat]).
Definition w0_missing : ROS := mkWorld heap0 sampler0_missing.

(** The sampler of [w0] after an earlier fit, with other generator states. *)
Definition w0_refit : ROS :=
  mkWorld (mkHeap 1%Z 2%Z 3%Z)
          (mkROS (Strategy_dict [(1%Z, 1%nat)]) (RS_int 42) false (Shrinkage_real 1%R)
                 [(1%Z, 1%nat)] (Some [(1%Z, 2%R)]) (Some [0%nat])).

(** The sampler of [w0] with a shrinkage mapping that names no class. *)
Definition w0_empty_shrinkage : ROS :=
  mkWorld heap0
          (mkROS (Strategy_dict [(1%Z, 1%nat)]) (RS_int 42) false (Shrinkage_dict [])
                 [(1%Z, 1%nat)] None None).

Definition legacy0 : World Legacy.RandomOverSampler :=
  mkWorld heap0 (Legacy.mkROS [(1%Z, 1%nat)] (RS_int 42)).

(** Classes [{0: 100, 1: 30}], strategy ['auto'], seed [42]. *)
Definition X1 : matrix := mkMatrix Dense 1 (repeat [0%R] 130).
Definition y1 : list Z := (repeat 0 100 ++ repeat 1 30)%Z.
Definition sampler1 : RandomOverSampler :=
  mkROS Strategy_auto (RS_int 42) false (Shrinkage_real 1%R) [] None None.
Definition w1 : ROS := mkWorld heap0 sampler1.

(** A generator over 95 resampled rows with batches of 10. *)
Definition gen95 : Keras.BBG :=
  mkWorld heap0
          (Keras.mkBBG (Keras.mkArray false []) (Keras.mkArray false []) None None
                       10 false (RS_int 42) None (seq 0 95)).

(** A sampler that selects every row, and a generator over four rows with
    batches of two, as left by the constructor. *)
Definition every_row : Keras.Sampler :=
  Keras.mkSampler true (fun g X _ => (inr (seq 0 (length (Keras.items X))), g)).
Definition gen4 : Keras.BBG :=
  mkWorld heap0
          (Keras.mkBBG (Keras.mkArray false [[1%R]; [2%R]; [3%R]; [4%R]])
                       (Keras.mkArray false [[0%R]; [0%R]; [1%R]; [1%R]])
                       None (Some every_row) 2 false (RS_int 42)
                       (Some every_row) [2; 3; 0; 1]%nat).

(** The generator [gen4] with sparse sample weights and [sparse = False]. *)
Definition gen4_sparse_weights : Keras.BBG :=
  mkWorld heap0
          (Keras.mkBBG (Keras.mkArray false [[1%R]; [2%R]; [3%R]; [4%R]])
                       (Keras.mkArray false [[0%R]; [0%R]; [1%R]; [1%R]])
                       (Some (Keras.mkArray true [1%R; 1%R; 2%R; 2%R]))
                       (Some every_row) 2 false (RS_int 42)
                       (Some every_row) [2; 3; 0; 1]%nat).

(** The generator [gen95] with a batch size of zero. *)
Definition gen95_zero_batch : Keras.BBG :=
  mkWorld heap0
          (Keras.mkBBG (Keras.mkArray false []) (Keras.mkArray false []) None None
                       0 false (RS_int 42) None (seq 0 95)).

End Example.

(** * Proofs *)

(** ** The concrete random source satisfies the laws *)

Module LCGFacts.
Import LCG.

Lemma draws_length g high k : length (fst (draws g high k)) = k.
Proof.
  revert g; induction k as [|k IH]; intros g; simpl; [reflexivity|].
  specialize (IH (next g)). destruct (draws (next g) high k); simpl in *; lia.
Qed.

Lemma draws_lt g high k i :
  (0 < high)%nat -> In i (fst (draws g high k)) -> (i < high)%nat.
Proof.
  intros Hh; revert g; induction k as [|k IH]; intros g; simpl; [tauto|].
  specialize (IH (next g)). destruct (draws (next g) high k) as [l g']; simpl in *.
  intros [<-|Hin]; [|auto].
  assert (0 <= next g mod Z.of_nat high < Z.of_nat high)%Z
    by (apply Z.mod_pos_bound; lia).
  lia.
Qed.

Lemma randn_row_length g f : length (fst (randn_row g f)) = f.
Proof.
  revert g; induction f as [|f IH]; intros g; simpl; [reflexivity|].
  specialize (IH (next g)). destruct (randn_row (next g) f); simpl in *; lia.
Qed.

Lemma randn_shape g k f :
  length (fst (randn g k f)) = k /\
  Forall (fun r => length r = f) (fst (randn g k f)).
Proof.
  revert g; induction k as [|k IH]; intros g; simpl; [split; constructor|].
  pose proof (randn_row_length g f) as Hr.
  destruct (randn_row g f) as [r g']; simpl in Hr.
  specialize (IH g'). destruct (randn g' k f) as [m g'']; simpl in *.
  destruct IH; split; [lia|constructor; assumption].
Qed.

#[export] Instance laws : RandomStateLaws LCG.random_state.
Proof.
  split; simpl.
  - intros g a k Ha. unfold choice. destruct a as [|x a]; [congruence|].
    pose proof (draws_length g (length (x :: a)) k) as H.
    destruct (draws g (length (x :: a)) k); simpl in *.
    now rewrite length_map.
  - intros g a k i. unfold choice. destruct a as [|x a]; [simpl; tauto|].
    remember (x :: a) as pop eqn:E.
    assert (0 < length pop)%nat as Hpos by (subst; simpl; lia).
    pose proof (fun j => @draws_lt g (length pop) k j Hpos) as H.
    destruct (draws g (length pop) k) as [l g']. cbn [fst] in *.
    rewrite in_map_iff. intros (j & <- & Hj). apply nth_In. auto.
  - intros g high k Hh. unfold randint. destruct high; [lia|]. apply draws_length.
  - intros g high k i. unfold randint. destruct high; [simpl; tauto|].
    apply draws_lt. lia.
  - intros g k f. apply randn_shape.
  - intros g k f. apply randn_shape.
  - intros g l. unfold shuffle; simpl.
    rewrite <- (firstn_skipn (Z.to_nat (next g mod Z.of_nat (length l))) l) at 1.
    apply Permutation_app_comm.
Qed.

End LCGFacts.

(** ** Stepping through the monad *)

Section MonadFacts.

Context {S : Type}.

Lemma bind_inv {A B} (m : M S A) (k : A -> M S B) s b s' :
  bind m k s = (inr b, s') ->
  exists a s1, m s = (inr a, s1) /\ k a s1 = (inr b, s').
Proof.
  unfold bind. destruct (m s) as [[e|a] s1]; [discriminate|]. eauto.
Qed.

Lemma bind_ok {A B} (m : M S A) (k : A -> M S B) s a s1 :
  m s = (inr a, s1) -> bind m k s = k a s1.
Proof. unfold bind. now intros ->. Qed.


Lemma lift_exn_inv {A} (r : exn + A) (s s' : S) a :
  lift_exn r s = (inr a, s') -> r = inr a /\ s' = s.
Proof. unfold lift_exn. intros H; inversion H; auto. Qed.

Lemma gets_inv {A} (f : S -> A) (s s' : S) a :
  gets f s = (inr a, s') -> a = f s /\ s' = s.
Proof. unfold gets. intros H; inversion H; auto. Qed.

Lemma ret_inv {A} (x a : A) (s s' : S) :
  ret x s = (inr a, s') -> a = x /\ s' = s.
Proof. unfold ret. intros H; inversion H; auto. Qed.

End MonadFacts.

(** ** Indexing and class indices *)

Lemma safe_indexing_inv {A} (a : list A) idx l :
  _safe_indexing a idx = inr l ->
  Forall2 (fun i x => nth_error a i = Some x) idx l.
Proof.
  revert l; induction idx as [|i idx IH]; intros l; simpl.
  - intros H; inversion H; constructor.
  - destruct (nth_error a i) eqn:E; [|discriminate].
    destruct (_safe_indexing a idx); [discriminate|].
    intros H; inversion H; subst. constructor; auto.
Qed.

Lemma safe_indexing_length {A} (a : list A) idx l :
  _safe_indexing a idx = inr l -> length l = length idx.
Proof.
  intros H. apply safe_indexing_inv in H. symmetry. eapply Forall2_length; eauto.
Qed.

Lemma safe_indexing_ok {A} (a : list A) idx :
  Forall (fun i => (i < length a)%nat) idx ->
  exists l, _safe_indexing a idx = inr l.
Proof.
  induction 1 as [|i idx Hi _ [l IH]]; simpl; [eauto|].
  destruct (nth_error a i) eqn:E.
  - rewrite IH. eauto.
  - apply nth_error_None in E. lia.
Qed.

Lemma safe_indexing_const (y : list Z) idx l c :
  Forall (fun i => nth_error y i = Some c) idx ->
  _safe_indexing y idx = inr l -> l = repeat c (length idx).
Proof.
  intros Hall H. apply safe_indexing_inv in H.
  induction H as [|i x idx l Hx _ IH]; [reflexivity|].
  inversion Hall; subst. simpl. f_equal; [congruence|auto].
Qed.

Lemma flatnonzero_from_In s y c i :
  In i (flatnonzero_from s y c) <->
  (s <= i)%nat /\ nth_error y (i - s) = Some c.
Proof.
  revert s; induction y as [|l y IH]; intros s; simpl.
  - split; [tauto|]. intros [_ H]. destruct (i - s)%nat; discriminate.
  - destruct (Z.eqb_spec l c) as [->|Hne]; simpl; rewrite ?IH.
    + split.
      * intros [<-|[Hle Hn]].
        -- rewrite Nat.sub_diag. simpl. auto.
        -- replace (i - s)%nat with (S (i - S s)) by lia. simpl. split; [lia|auto].
      * intros [Hle Hn]. destruct (Nat.eq_dec s i) as [->|Hsi]; [auto|].
        right. replace (i - s)%nat with (S (i - S s)) in Hn by lia.
        simpl in Hn. split; [lia|auto].
    + split.
      * intros [Hle Hn].
        replace (i - s)%nat with (S (i - S s)) by lia. simpl. split; [lia|auto].
      * intros [Hle Hn]. destruct (Nat.eq_dec s i) as [->|Hsi].
        -- rewrite Nat.sub_diag in Hn. simpl in Hn. congruence.
        -- replace (i - s)%nat with (S (i - S s)) in Hn by lia.
           simpl in Hn. split; [lia|auto].
Qed.

Lemma flatnonzero_In y c i :
  In i (flatnonzero_eq y c) <-> nth_error y i = Some c.
Proof.
  unfold flatnonzero_eq. rewrite flatnonzero_from_In, Nat.sub_0_r.
  split; [tauto|split; [lia|auto]].
Qed.

Lemma flatnonzero_lt y c i :
  In i (flatnonzero_eq y c) -> (i < length y)%nat.
Proof.
  rewrite flatnonzero_In. intros H. apply nth_error_Some. congruence.
Qed.

Lemma mem_In k l : mem k l = true <-> In k l.
Proof.
  unfold mem. rewrite existsb_exists. split.
  - intros (x & Hx & E). apply Z.eqb_eq in E. now subst.
  - intros H. exists k. split; [auto|apply Z.eqb_refl].
Qed.

Lemma flatnonzero_nonempty y c :
  In c y -> flatnonzero_eq y c <> [].
Proof.
  intros H. apply In_nth_error in H as [i Hi].
  apply flatnonzero_In in Hi. intros E. rewrite E in Hi. exact Hi.
Qed.

(** ** One iteration of the over-sampling loop *)

Section OverSamplerFacts.

Context {rs : RandomState} {laws : RandomStateLaws rs}.

Lemma draw_eq {O A} (r : rs_ref) (op : RS -> A * RS) (w : World O) :
  draw r op w =
  (inr (fst (op (read_rs r (heap w)))),
   mkWorld (write_rs r (snd (op (read_rs r (heap w)))) (heap w)) (self w)).
Proof. unfold draw. now destruct (op (read_rs r (heap w))). Qed.

Lemma read_write_rs r g h : read_rs r (write_rs r g h) = g.
Proof. now destruct r. Qed.

Lemma choice_inv {O} r a k (w w' : World O) boot :
  choice r a k w = (inr boot, w') ->
  length boot = k /\ (forall i, In i boot -> In i a) /\ self w' = self w.
Proof.
  unfold choice. destruct a as [|x a].
  - destruct k; [|discriminate]. rewrite draw_eq. intros H; inversion H; subst; clear H.
    pose proof (choice_In (read_rs r (heap w)) [] 0) as Hin.
    destruct (fst (rs_choice (read_rs r (heap w)) [] 0)) as [|i l].
    + simpl; auto.
    + exfalso. apply (Hin i). now left.
  - intros H. assert (draw r (fun g => rs_choice g (x :: a) k) w = (inr boot, w')) as D
      by (destruct k; exact H).
    rewrite draw_eq in D. inversion D; subst; clear D. simpl.
    split; [apply choice_length; discriminate|]. split; [|reflexivity].
    intros i. apply choice_In.
Qed.

Lemma choice_ok {O} r a k (w : World O) :
  a <> [] -> exists boot w', choice r a k w = (inr boot, w').
Proof.
  intros Ha. unfold choice. destruct a as [|x a]; [congruence|].
  destruct k; rewrite draw_eq; eauto.
Qed.

Lemma mat_add_length A B :
  length (mat_add A B) = Nat.min (length A) (length B).
Proof. unfold mat_add. now rewrite length_map, length_combine. Qed.

Lemma dot_length f A B : length (dot f A B) = length A.
Proof. unfold dot. now rewrite length_map. Qed.

Lemma shrinkage_of_inv c (w w' : ROS) v :
  shrinkage_of c w = (inr v, w') ->
  (exists d, shrinkage_ (self w) = Some d /\ dict_get d c = Some v) /\ w' = w.
Proof.
  unfold shrinkage_of. intros H.
  apply bind_inv in H as (d & w1 & Hg & H). apply gets_inv in Hg as [-> ->].
  destruct (shrinkage_ (self w)) as [d|]; [|discriminate].
  destruct (dict_get d c) as [v'|] eqn:E; [|discriminate].
  apply ret_inv in H as [-> ->]. eauto.
Qed.

Lemma resample_class_inv r X y c k (w w' : ROS) boot Xn yn :
  resample_class r X y c k w = (inr (boot, Xn, yn), w') ->
  block_spec (self w) X y (c, k) (boot, Xn, yn) /\ self w' = self w.
Proof.
  unfold resample_class, block_spec, block_indices, block_X, block_y. cbn [fst snd].
  intros H.
  apply bind_inv in H as (boot' & w1 & Hc & H).
  apply choice_inv in Hc as (Hlen & Hin & Hself).
  apply bind_inv in H as (sb & w2 & Hg & H). apply gets_inv in Hg as [-> ->].
  assert (Hy : Forall (fun i => nth_error y i = Some c) boot').
  { apply Forall_forall. intros i Hi. apply flatnonzero_In. auto. }
  rewrite Hself in H.
  destruct (smoothed_bootstrap (self w)) eqn:Esb.
  - cbn [shape] in H.
    apply bind_inv in H as (C & w2 & H1 & H). apply lift_exn_inv in H1 as [HC ->].
    apply bind_inv in H as (Xc & w2 & H1 & H). apply lift_exn_inv in H1 as [HXc ->].
    apply bind_inv in H as (sh & w2 & H1 & H). apply shrinkage_of_inv in H1 as [Hsh ->].
    apply bind_inv in H as (noise & w2 & H1 & H). rewrite draw_eq in H1.
    inversion H1; subst noise w2; clear H1.
    apply bind_inv in H as (Xb & w2 & H1 & H). apply lift_exn_inv in H1 as [HXb ->].
    apply bind_inv in H as (yn' & w2 & H1 & H). apply lift_exn_inv in H1 as [Hyn ->].
    apply ret_inv in H as [E ->]. inversion E; subst; clear E. cbn [rows self].
    rewrite Hself in Hsh.
    split; [|exact Hself].
    split; [reflexivity|]. split; [assumption|].
    split; [eapply safe_indexing_const; eauto|].
    split.
    + rewrite mat_add_length, dot_length, randn_rows.
      apply safe_indexing_length in HXb. lia.
    + unfold smoothed_block, block_indices, block_X. cbn [fst snd rows].
      eexists sh, C, Xc, _, Xb. repeat split; try eassumption.
      * apply randn_rows.
      * apply randn_cols.
  - apply bind_inv in H as (Xn' & w2 & H1 & H). apply lift_exn_inv in H1 as [HXb ->].
    apply bind_inv in H as (yn' & w2 & H1 & H). apply lift_exn_inv in H1 as [Hyn ->].
    apply ret_inv in H as [E ->]. inversion E; subst; clear E. cbn [rows].
    split; [|assumption].
    split; [reflexivity|]. split; [assumption|].
    split; [eapply safe_indexing_const; eauto|].
    split; [eapply safe_indexing_length; eauto|assumption].
Qed.

Lemma resample_class_ok r X y c k (w : ROS) :
  length (rows X) = length y ->
  In c y ->
  (smoothed_bootstrap (self w) = true ->
   exists d v, shrinkage_ (self w) = Some d /\ dict_get d c = Some v) ->
  exists b w', resample_class r X y c k w = (inr b, w').
Proof.
  intros Hlen Hc Hsh.
  destruct (choice_ok r k w (flatnonzero_nonempty _ _ Hc)) as (boot & w1 & Hch).
  destruct (choice_inv _ _ _ _ Hch) as (Hk & Hin & Hself).
  assert (Hlt : Forall (fun i => (i < length y)%nat) boot).
  { apply Forall_forall. intros i Hi. eapply flatnonzero_lt; eauto. }
  destruct (safe_indexing_ok y Hlt) as [yn Hyn].
  rewrite <- Hlen in Hlt.
  destruct (safe_indexing_ok (rows X) Hlt) as [Xb HXb].
  unfold resample_class. rewrite (bind_ok _ _ _ Hch).
  unfold bind at 1, gets at 1. rewrite Hself.
  destruct (smoothed_bootstrap (self w)) eqn:Esb.
  - destruct (Hsh eq_refl) as (d & v & Hd & Hv).
    assert (Hpos : (0 < length (rows X))%nat).
    { rewrite Hlen. destruct y; [contradiction|simpl; lia]. }
    assert (Hcl : Forall (fun i => (i < length (rows X))%nat) (flatnonzero_eq y c)).
    { apply Forall_forall. intros i Hi. rewrite Hlen. eapply flatnonzero_lt; eauto. }
    destruct (safe_indexing_ok (rows X) Hcl) as [Xc HXc].
    cbn [shape]. unfold smoothing_constant.
    replace (Nat.eqb ((n_cols X + 2) * length (rows X)) 0) with false
      by (symmetry; apply Nat.eqb_neq; nia).
    rewrite HXc.
    unfold bind at 1, lift_exn at 1. unfold bind at 1, lift_exn at 1.
    unfold shrinkage_of. unfold bind at 1. unfold bind at 1, gets at 1.
    rewrite Hself, Hd, Hv. unfold ret at 1.
    unfold bind at 1. rewrite draw_eq.
    rewrite HXb, Hyn. unfold bind, lift_exn, ret. eauto.
  - rewrite HXb, Hyn. unfold bind, lift_exn, ret. eauto.
Qed.

(** ** The loop over the sampling strategy *)

Lemma resample_loop_inv r X y items :
  forall Xs ys si (w w' : ROS) Xs' ys' si',
    resample_loop r X y items (Xs, ys, si) w = (inr (Xs', ys', si'), w') ->
    exists blocks : list block,
      Forall2 (block_spec (self w) X y) items blocks /\
      Xs' = Xs ++ map block_X blocks /\
      ys' = ys ++ map block_y blocks /\
      si' = si ++ concat (map block_indices blocks) /\
      self w' = self w.
Proof.
  induction items as [|[c k] items IH]; intros Xs ys si w w' Xs' ys' si' H.
  - apply ret_inv in H as [E ->]. inversion E; subst.
    exists []. simpl. rewrite !app_nil_r. repeat split; constructor.
  - cbn [resample_loop] in H.
    apply bind_inv in H as ([[boot Xn] yn] & w1 & H1 & H).
    apply resample_class_inv in H1 as [Hb Hself].
    apply IH in H as (blocks & HF & -> & -> & -> & Hself').
    exists ((boot, Xn, yn) :: blocks). rewrite Hself in HF.
    split; [constructor; assumption|].
    unfold block_X, block_y, block_indices. cbn [map concat fst snd].
    rewrite <- !app_assoc. repeat split; congruence.
Qed.

Lemma resample_loop_ok r X y items :
  forall acc (w : ROS),
    length (rows X) = length y ->
    Forall (fun ck => In (fst ck) y) items ->
    (smoothed_bootstrap (self w) = true ->
     exists d, shrinkage_ (self w) = Some d /\
               Forall (fun ck => exists v, dict_get d (fst ck) = Some v) items) ->
    exists res w', resample_loop r X y items acc w = (inr res, w').
Proof.
  induction items as [|[c k] items IH]; intros acc w Hlen Hin Hsh.
  - simpl. unfold ret. eauto.
  - inversion Hin as [|? ? Hc Hin']; subst. cbn [fst] in Hc.
    destruct (@resample_class_ok r X y c k w Hlen Hc) as ([[boot Xn] yn] & w1 & H1).
    { intros Esb. destruct (Hsh Esb) as (d & Hd & HF).
      inversion HF as [|? ? [v Hv] _]; subst. eauto. }
    cbn [resample_loop]. rewrite (bind_ok _ _ _ H1).
    destruct acc as [[Xs ys] si].
    apply resample_class_inv in H1 as [_ Hself].
    apply IH; auto. rewrite Hself. intros Esb.
    destruct (Hsh Esb) as (d & Hd & HF). inversion HF; subst. eauto.
Qed.

(** ** The whole of [_fit_resample] *)

Lemma block_spec_ext o1 o2 X y ck b :
  smoothed_bootstrap o1 = smoothed_bootstrap o2 ->
  shrinkage_ o1 = shrinkage_ o2 ->
  block_spec o1 X y ck b -> block_spec o2 X y ck b.
Proof.
  unfold block_spec, smoothed_block. intros <- <-. exact (fun H => H).
Qed.

Lemma check_random_state_inv {O} arg (w w0 : World O) r :
  check_random_state arg w = (inr r, w0) -> self w0 = self w.
Proof.
  destruct arg; cbn; intros H; inversion H; reflexivity.
Qed.

Lemma check_random_state_ok {O} arg (w : World O) :
  exists r w0, check_random_state arg w = (inr r, w0).
Proof. destruct arg; do 2 eexists; reflexivity. Qed.

Lemma dict_get_map_const {V} (d : list (Z * V)) (r : R) c :
  In c (keys d) -> dict_get (map (fun kv => (fst kv, r)) d) c = Some r.
Proof.
  induction d as [|[c' v] d IH]; simpl; [tauto|].
  destruct (Z.eqb_spec c' c); [reflexivity|]. intros [E|H]; [congruence|auto].
Qed.

Lemma dict_get_mem {V} (d : list (Z * V)) c :
  mem c (keys d) = true -> exists v, dict_get d c = Some v.
Proof.
  rewrite mem_In. induction d as [|[c' v] d IH]; simpl; [tauto|].
  destruct (Z.eqb_spec c' c); [eauto|]. intros [E|H]; [congruence|auto].
Qed.

Lemma keys_difference_nil {V W} (a : list (Z * V)) (b : list (Z * W)) :
  keys_difference a b = [] <-> forallb (fun c => mem c (keys b)) (keys a) = true.
Proof.
  unfold keys_difference. induction (keys a) as [|c l IH]; simpl; [tauto|].
  destruct (mem c (keys b)); simpl; [exact IH|]. split; discriminate.
Qed.

Lemma resolve_shrinkage_inv (w w1 : ROS) u :
  resolve_shrinkage w = (inr u, w1) ->
  heap w1 = heap w /\
  ((smoothed_bootstrap (self w) = false /\ self w1 = self w) \/
   (smoothed_bootstrap (self w) = true /\
    exists d, self w1 = set_shrinkage_ d (self w) /\
              Forall (fun ck : Z * nat => exists v, dict_get d (fst ck) = Some v)
                     (sampling_strategy_ (self w)))).
Proof.
  unfold resolve_shrinkage. unfold bind at 1, gets at 1.
  destruct (smoothed_bootstrap (self w)) eqn:Esb.
  - unfold bind at 1, gets at 1. unfold bind at 1, gets at 1.
    destruct (shrinkage (self w)) as [r|d] eqn:Esh.
    + cbn. intros H; inversion H; subst; clear H. cbn.
      split; [reflexivity|]. right. split; [reflexivity|].
      eexists; split; [reflexivity|]. apply Forall_forall. intros [c k] Hin.
      exists r. apply dict_get_map_const. apply in_map_iff. exists (c, k). auto.
    + destruct (keys_difference (sampling_strategy_ (self w)) d) eqn:Ed;
        [|discriminate].
      cbn. intros H; inversion H; subst; clear H. cbn.
      split; [reflexivity|]. right. split; [reflexivity|].
      eexists; split; [reflexivity|]. apply keys_difference_nil in Ed.
      rewrite forallb_forall in Ed. apply Forall_forall. intros [c k] Hin.
      apply dict_get_mem. apply Ed. apply in_map_iff. exists (c, k). auto.
  - intros H. apply ret_inv in H as [_ ->]. auto.
Qed.

Lemma resolve_shrinkage_ok (w : ROS) :
  (smoothed_bootstrap (self w) = true ->
   forall d, shrinkage (self w) = Shrinkage_dict d ->
             forallb (fun c => mem c (keys d)) (keys (sampling_strategy_ (self w))) = true) ->
  exists w1, resolve_shrinkage w = (inr tt, w1).
Proof.
  intros Hv. unfold resolve_shrinkage. unfold bind at 1, gets at 1.
  destruct (smoothed_bootstrap (self w)) eqn:Esb; [|eexists; reflexivity].
  unfold bind at 1, gets at 1. unfold bind at 1, gets at 1.
  destruct (shrinkage (self w)) as [r|d] eqn:Esh; [eexists; reflexivity|].
  specialize (Hv eq_refl d eq_refl). apply keys_difference_nil in Hv.
  rewrite Hv. eexists; reflexivity.
Qed.

Lemma fit_resample_inv X y (w w' : ROS) X' y' :
  _fit_resample X y w = (inr (X', y'), w') ->
  exists blocks : list block,
    Forall2 (block_spec (self w') X y) (sampling_strategy_ (self w)) blocks /\
    X' = mkMatrix (format X) (n_cols X)
           (rows X ++ concat (map (fun b => rows (block_X b)) blocks)) /\
    y' = y ++ concat (map block_y blocks) /\
    sample_indices_ (self w') =
      Some (seq 0 (length (rows X)) ++ concat (map block_indices blocks)) /\
    smoothed_bootstrap (self w') = smoothed_bootstrap (self w).
Proof.
  unfold _fit_resample. intros H.
  apply bind_inv in H as (seed & w0 & H0 & H). apply gets_inv in H0 as [-> ->].
  apply bind_inv in H as (r & w0 & H0 & H). apply check_random_state_inv in H0 as Hs0.
  apply bind_inv in H as (u & w1 & H1 & H).
  apply resolve_shrinkage_inv in H1 as [_ Hs1].
  apply bind_inv in H as (strategy & w2 & H2 & H). apply gets_inv in H2 as [-> ->].
  apply bind_inv in H as ([[Xs ys] si] & w2 & H2 & H).
  apply resample_loop_inv in H2 as (blocks & HF & -> & -> & -> & Hs2).
  apply bind_inv in H as (u' & w3 & H3 & H).
  unfold update_self, modify in H3. inversion H3; subst u' w3; clear H3.
  apply ret_inv in H as [E ->]. inversion E; subst; clear E.
  cbn [self sample_indices_ set_sample_indices_ shape fst].
  assert (Hstr : sampling_strategy_ (self w1) = sampling_strategy_ (self w)).
  { rewrite <- Hs0. destruct Hs1 as [[_ ->]|(_ & d & -> & _)]; reflexivity. }
  exists blocks. rewrite Hstr in HF. split; [|split; [|split; [|split]]].
  - eapply Forall2_impl; [|exact HF]. intros ck b.
    apply block_spec_ext; rewrite Hs2; reflexivity.
  - unfold vstack. cbn [map concat]. now rewrite map_map.
  - reflexivity.
  - reflexivity.
  - cbn. rewrite Hs2, <- Hs0.
    destruct Hs1 as [[_ ->]|(_ & d & -> & _)]; reflexivity.
Qed.

Lemma valid_input_In o X y :
  valid_input o X y = true ->
  length (rows X) = length y /\
  Forall (fun ck : Z * nat => In (fst ck) y) (sampling_strategy_ o).
Proof.
  unfold valid_input. rewrite !andb_true_iff. intros [[Hl Hc] _].
  split; [now apply Nat.eqb_eq|].
  rewrite forallb_forall in Hc. apply Forall_forall. intros ck Hin.
  apply mem_In. apply Hc. unfold keys. now apply in_map.
Qed.

Lemma fit_resample_ok X y (w : ROS) :
  valid_input (self w) X y = true ->
  exists X' y' w', _fit_resample X y w = (inr (X', y'), w').
Proof.
  intros Hv. destruct (valid_input_In _ _ _ Hv) as [Hlen Hin].
  unfold _fit_resample. unfold bind at 1, gets at 1.
  destruct (check_random_state_ok (random_state (self w)) w) as (r & w0 & H0).
  pose proof (check_random_state_inv _ _ H0) as Hs0.
  rewrite (bind_ok _ _ _ H0).
  destruct (resolve_shrinkage_ok w0) as [w1 H1].
  { rewrite Hs0. intros Esb d Ed. unfold valid_input in Hv.
    rewrite Esb, Ed in Hv. rewrite !andb_true_iff in Hv. apply Hv. }
  pose proof (resolve_shrinkage_inv _ H1) as [_ Hs1].
  rewrite (bind_ok _ _ _ H1). unfold bind at 1, gets at 1.
  assert (Hstr : sampling_strategy_ (self w1) = sampling_strategy_ (self w)).
  { rewrite <- Hs0. destruct Hs1 as [[_ ->]|(_ & d & -> & _)]; reflexivity. }
  destruct (@resample_loop_ok r X y (sampling_strategy_ (self w1))
              ([X], [y], seq 0 (fst (shape X))) w1) as ([[Xs ys] si] & w2 & H2).
  - assumption.
  - now rewrite Hstr.
  - intros Esb. destruct Hs1 as [[Ef Hs1]|(_ & d & Hd & HF)].
    + rewrite Hs1, Hs0 in Esb. congruence.
    + exists d. rewrite Hd. split; [reflexivity|exact HF].
  - rewrite (bind_ok _ _ _ H2). do 3 eexists. reflexivity.
Qed.

(** ** What the loop depends on *)

Lemma rel_bind {S A B} (Q : S -> S -> Prop) (m : M S A) (k : A -> M S B) s1 s2 :
  rel_at Q m s1 s2 ->
  (forall a t1 t2, m s1 = (inr a, t1) -> m s2 = (inr a, t2) -> Q t1 t2 ->
                   rel_at Q (k a) t1 t2) ->
  rel_at Q (bind m k) s1 s2.
Proof.
  unfold rel_at, bind.
  destruct (m s1) as [[e1|a1] t1], (m s2) as [[e2|a2] t2]; cbn [fst snd];
    intros [E HQ] Hk; inversion E; subst; auto.
Qed.

Lemma rel_lift_exn {S A} (Q : S -> S -> Prop) (x : exn + A) s1 s2 :
  Q s1 s2 -> rel_at Q (lift_exn x) s1 s2.
Proof. unfold rel_at, lift_exn; auto. Qed.

Lemma rel_ret {S A} (Q : S -> S -> Prop) (x : A) s1 s2 :
  Q s1 s2 -> rel_at Q (ret x) s1 s2.
Proof. unfold rel_at, ret; auto. Qed.

Lemma rel_draw {A} r b (op : RS -> A * RS) w1 w2 :
  agree r b w1 w2 -> rel_at (agree r b) (draw r op) w1 w2.
Proof.
  intros (Hg & H1 & H2 & H3). unfold rel_at. rewrite !draw_eq. cbn [fst snd].
  rewrite Hg. split; [reflexivity|].
  unfold agree. cbn [heap self]. rewrite !read_write_rs. auto.
Qed.

Lemma rel_choice r b a k w1 w2 :
  agree r b w1 w2 -> rel_at (agree r b) (choice r a k) w1 w2.
Proof.
  intros H. unfold choice. destruct a as [|x a]; [destruct k|].
  - now apply rel_draw.
  - unfold rel_at, raise; auto.
  - destruct k; now apply rel_draw.
Qed.

Lemma rel_shrinkage_of r c w1 w2 :
  agree r true w1 w2 -> rel_at (agree r true) (shrinkage_of c) w1 w2.
Proof.
  intros H. pose proof H as (_ & _ & _ & Hs). specialize (Hs eq_refl).
  unfold rel_at, shrinkage_of, bind, gets. rewrite Hs.
  destruct (shrinkage_ (self w2)) as [d|]; [|cbn; auto].
  destruct (dict_get d c); cbn; auto.
Qed.

Lemma resample_class_agree r b X y c k w1 w2 :
  agree r b w1 w2 -> rel_at (agree r b) (resample_class r X y c k) w1 w2.
Proof.
  intros H. unfold resample_class.
  apply rel_bind; [now apply rel_choice|]. intros boot t1 t2 _ _ Ht.
  apply rel_bind.
  { destruct Ht as (? & E1 & E2 & ?). unfold rel_at, gets. cbn [fst snd].
    split; [congruence|unfold agree; auto]. }
  intros sb u1 u2 Hg1 Hg2 Hu.
  apply gets_inv in Hg1 as [-> ->]. apply gets_inv in Hg2 as [_ ->].
  replace (smoothed_bootstrap (self t1)) with b by (symmetry; apply Hu).
  destruct b.
  - cbn [shape].
    apply rel_bind; [now apply rel_lift_exn|]. intros C v1 v2 _ _ Hv.
    apply rel_bind; [now apply rel_lift_exn|]. intros Xc x1 x2 _ _ Hx.
    apply rel_bind; [now apply rel_shrinkage_of|]. intros sh z1 z2 _ _ Hz.
    apply rel_bind; [now apply rel_draw|]. intros noise a1 a2 _ _ Ha.
    apply rel_bind; [now apply rel_lift_exn|]. intros Xb b1 b2 _ _ Hb.
    apply rel_bind; [now apply rel_lift_exn|]. intros yn c1 c2 _ _ Hc.
    now apply rel_ret.
  - apply rel_bind; [now apply rel_lift_exn|]. intros Xb b1 b2 _ _ Hb.
    apply rel_bind; [now apply rel_lift_exn|]. intros yn c1 c2 _ _ Hc.
    now apply rel_ret.
Qed.

Lemma resample_loop_agree r b X y items :
  forall acc w1 w2,
    agree r b w1 w2 -> rel_at (agree r b) (resample_loop r X y items acc) w1 w2.
Proof.
  induction items as [|[c k] items IH]; intros acc w1 w2 H; cbn [resample_loop].
  - now apply rel_ret.
  - apply rel_bind; [now apply resample_class_agree|].
    intros [[boot Xn] yn] t1 t2 _ _ Ht. destruct acc as [[Xs ys] si]. now apply IH.
Qed.

End OverSamplerFacts.

(** ** The older sampler *)

Section LegacyFacts.

Context {rs : RandomState} {laws : RandomStateLaws rs}.

Lemma flatnonzero_from_length s y c :
  length (flatnonzero_from s y c) = Legacy.count y c.
Proof.
  unfold Legacy.count. revert s; induction y as [|l y IH]; intros s; simpl; [reflexivity|].
  destruct (Z.eqb_spec l c), (Z.eq_dec l c); try congruence; simpl; auto.
Qed.

Lemma legacy_sample_loop_ok r X y items :
  forall acc (w : World Legacy.RandomOverSampler),
    length (rows X) = length y ->
    Forall (fun ck : Z * nat => In (fst ck) y) items ->
    exists XE yE w',
      Legacy.sample_loop r X y items acc w = (inr (fst acc ++ XE, snd acc ++ yE), w') /\
      length XE = length yE.
Proof.
  induction items as [|[c k] items IH]; intros acc w Hlen Hin.
  - exists [], [], w. rewrite !app_nil_r. destruct acc. split; reflexivity.
  - inversion Hin as [|? ? Hc Hin']; subst. cbn [fst] in Hc.
    cbn [Legacy.sample_loop].
    assert (Hpos : (0 < Legacy.count y c)%nat).
    { unfold Legacy.count. now apply count_occ_In. }
    unfold randint. destruct (Legacy.count y c) as [|n] eqn:En; [lia|].
    rewrite <- En in *. unfold bind at 1. rewrite draw_eq.
    set (g := read_rs r (heap w)). set (w1 := mkWorld _ _).
    pose proof (randint_length g k Hpos) as Hk.
    pose proof (randint_lt g (Legacy.count y c) k) as Hlt.
    set (idx := fst (rs_randint g (Legacy.count y c) k)) in *.
    assert (Hcl : Forall (fun i => (i < length y)%nat) (flatnonzero_eq y c)).
    { apply Forall_forall. intros i Hi. eapply flatnonzero_lt; eauto. }
    destruct (safe_indexing_ok y Hcl) as [yc Hyc].
    rewrite <- Hlen in Hcl. destruct (safe_indexing_ok (rows X) Hcl) as [Xc HXc].
    pose proof (safe_indexing_length _ _ Hyc) as Lyc.
    pose proof (safe_indexing_length _ _ HXc) as LXc.
    unfold flatnonzero_eq in Lyc, LXc. rewrite flatnonzero_from_length in Lyc, LXc.
    assert (Hy : Forall (fun i => (i < length yc)%nat) idx)
      by (apply Forall_forall; intros i Hi; rewrite Lyc; auto).
    assert (HX : Forall (fun i => (i < length Xc)%nat) idx)
      by (apply Forall_forall; intros i Hi; rewrite LXc; auto).
    destruct (safe_indexing_ok yc Hy) as [yn Hyn].
    destruct (safe_indexing_ok Xc HX) as [Xn HXn].
    rewrite HXc. unfold bind at 1, lift_exn at 1.
    rewrite HXn. unfold bind at 1, lift_exn at 1.
    rewrite Hyc. unfold bind at 1, lift_exn at 1.
    rewrite Hyn. unfold bind at 1, lift_exn at 1.
    destruct (IH (fst acc ++ Xn, snd acc ++ yn) w1 Hlen Hin') as (XE & yE & w' & E & HL).
    exists (Xn ++ XE), (yn ++ yE), w'. rewrite E. cbn [fst snd].
    rewrite <- !app_assoc. split; [reflexivity|].
    apply safe_indexing_length in Hyn, HXn. rewrite !length_app. lia.
Qed.

Lemma legacy_sample_ok X y (w : World Legacy.RandomOverSampler) :
  legacy_valid_input (self w) X y = true ->
  exists X' y' w',
    Legacy._sample X y w = (inr (X', y'), w') /\
    length (rows X') = length y' /\
    original_rows_first X y (X', y').
Proof.
  unfold legacy_valid_input. rewrite andb_true_iff. intros [Hlen Hc].
  apply Nat.eqb_eq in Hlen.
  assert (Hin : Forall (fun ck : Z * nat => In (fst ck) y) (Legacy.ratio_ (self w))).
  { rewrite forallb_forall in Hc. apply Forall_forall. intros ck H.
    apply mem_In, Hc. unfold keys. now apply in_map. }
  unfold Legacy._sample. unfold bind at 1, gets at 1.
  destruct (check_random_state_ok (Legacy.random_state (self w)) w) as (r & w0 & H0).
  rewrite (bind_ok _ _ _ H0).
  destruct (@legacy_sample_loop_ok r X y (Legacy.ratio_ (self w)) (rows X, y) w0 Hlen Hin)
    as (XE & yE & w' & E & HL).
  rewrite (bind_ok _ _ _ E). cbn [fst snd].
  do 3 eexists. split; [reflexivity|]. cbn [rows]. split.
  - rewrite !length_app. lia.
  - unfold original_rows_first. cbn [fst snd rows].
    rewrite !firstn_app, !Nat.sub_diag, !firstn_all. cbn. now rewrite !app_nil_r.
Qed.

End LegacyFacts.

(** ** Shape of the appended blocks *)

Lemma blocks_shape o X y items (blocks : list block) :
  Forall2 (block_spec o X y) items blocks ->
  length (concat (map (fun b => rows (block_X b)) blocks)) = list_sum (map snd items) /\
  concat (map block_y blocks) = concat (map (fun ck => repeat (fst ck) (snd ck)) items) /\
  length (concat (map block_indices blocks)) = list_sum (map snd items).
Proof.
  induction 1 as [|ck b items blocks Hb _ (IH1 & IH2 & IH3)]; [auto|].
  destruct Hb as (Hi & _ & Hy & Hx & _). cbn [map concat list_sum].
  rewrite !length_app, IH1, IH2, IH3, Hi, Hy, Hx. auto.
Qed.

Lemma blocks_labels o X y items (blocks : list block) :
  Forall2 (block_spec o X y) items blocks ->
  Forall (fun i => exists ck, In ck items /\ snd ck <> 0%nat /\
                              nth_error y i = Some (fst ck))
         (concat (map block_indices blocks)).
Proof.
  induction 1 as [|ck b items blocks Hb _ IH]; [constructor|].
  cbn [map concat]. apply Forall_app. split.
  - destruct Hb as (Hl & Hi & _). rewrite Forall_forall in *. intros i Hin.
    exists ck. split; [now left|]. split; [|auto].
    intros E. rewrite E in Hl. destruct (block_indices b); [contradiction|discriminate].
  - eapply Forall_impl; [|exact IH]. intros i (ck' & Hin & Hne & Hn).
    exists ck'. split; [now right|auto].
Qed.

Lemma original_rows_first_app X y XE yE :
  original_rows_first X y
    (mkMatrix (format X) (n_cols X) (rows X ++ XE), y ++ yE).
Proof.
  unfold original_rows_first. cbn [fst snd rows].
  rewrite !firstn_app, !Nat.sub_diag, !firstn_all. cbn. now rewrite !app_nil_r.
Qed.

(** ** Claims on the over-sampler's output *)

Section OutputClaims.

Context {rs : RandomState} {laws : RandomStateLaws rs}.

(** C9 -- on every valid input the over-sampler returns; every original row
    index [0 .. n-1] occurs in [sample_indices_]; the returned feature matrix
    and label vector have as many rows; the older [_sample] returns arrays of
    equal row counts as well. *)
Theorem oversampling_keeps_original_rows
    (X : matrix) (y : list Z) (w : ROS) (wl : World Legacy.RandomOverSampler) :
  valid_input (self w) X y = true ->
  legacy_valid_input (self wl) X y = true ->
  (exists X' y' w' si,
      _fit_resample X y w = (inr (X', y'), w') /\
      sample_indices_ (self w') = Some si /\
      (forall i, (i < length (rows X))%nat -> In i si) /\
      length (rows X') = length y') /\
  (exists X' y' wl',
      Legacy._sample X y wl = (inr (X', y'), wl') /\
      length (rows X') = length y').
Proof.
  intros Hv Hvl. split.
  - destruct (fit_resample_ok _ _ _ Hv) as (X' & y' & w' & Hrun).
    destruct (fit_resample_inv _ _ _ Hrun) as (blocks & HF & -> & -> & Hsi & Hsb').
    destruct (valid_input_In _ _ _ Hv) as [Hlen _].
    destruct (blocks_shape HF) as (L1 & L2 & _).
    do 4 eexists. split; [exact Hrun|]. split; [exact Hsi|]. split.
    + intros i Hi. apply in_or_app. left. apply in_seq. lia.
    + cbn [rows]. rewrite !length_app, L1, L2, Hlen. f_equal.
      clear. induction (sampling_strategy_ (self w)) as [|ck l IH]; [reflexivity|].
      simpl. rewrite length_app, repeat_length. lia.
  - destruct (legacy_sample_ok _ _ _ Hvl) as (X' & y' & wl' & Hrun & HL & _). eauto.
Qed.

(** C2 (as amended) -- no final permutation is applied: on every valid input
    the returned features are the input rows followed by one block per class
    of the strategy, in its iteration order; labels and [sample_indices_]
    have the same layout; the older [_sample] keeps the input rows first as
    well. *)
Theorem output_is_original_then_blocks
    (X : matrix) (y : list Z) (w : ROS) (wl : World Legacy.RandomOverSampler) :
  valid_input (self w) X y = true ->
  legacy_valid_input (self wl) X y = true ->
  (exists X' y' w' (blocks : list block),
      _fit_resample X y w = (inr (X', y'), w') /\
      Forall2 (block_spec (self w') X y) (sampling_strategy_ (self w)) blocks /\
      rows X' = rows X ++ concat (map (fun b => rows (block_X b)) blocks) /\
      y' = y ++ concat (map (fun ck => repeat (fst ck) (snd ck))
                            (sampling_strategy_ (self w))) /\
      sample_indices_ (self w') =
        Some (seq 0 (length (rows X)) ++ concat (map block_indices blocks)) /\
      original_rows_first X y (X', y')) /\
  (exists X' y' wl',
      Legacy._sample X y wl = (inr (X', y'), wl') /\
      original_rows_first X y (X', y')).
Proof.
  intros Hv Hvl. split.
  - destruct (fit_resample_ok _ _ _ Hv) as (X' & y' & w' & Hrun).
    destruct (fit_resample_inv _ _ _ Hrun) as (blocks & HF & -> & -> & Hsi & Hsb').
    destruct (blocks_shape HF) as (_ & L2 & _).
    do 3 eexists. exists blocks. split; [exact Hrun|]. split; [exact HF|].
    split; [reflexivity|]. split; [now rewrite L2|]. split; [exact Hsi|].
    apply original_rows_first_app.
  - destruct (legacy_sample_ok _ _ _ Hvl) as (X' & y' & wl' & Hrun & _ & HO). eauto.
Qed.

End OutputClaims.

Lemma oversampling_keeps_original_rows_witness :
  (exists X' y' w' si,
      _fit_resample Example.X0 Example.y0 Example.w0 = (inr (X', y'), w') /\
      sample_indices_ (self w') = Some si /\
      (forall i, (i < length (rows Example.X0))%nat -> In i si) /\
      length (rows X') = length y') /\
  (exists X' y' wl',
      Legacy._sample Example.X0 Example.y0 Example.legacy0 = (inr (X', y'), wl') /\
      length (rows X') = length y').
Proof.
  apply (@oversampling_keeps_original_rows LCG.random_state LCGFacts.laws);
    reflexivity.
Defined.

Lemma output_is_original_then_blocks_witness :
  (exists X' y' w' (blocks : list block),
      _fit_resample Example.X0 Example.y0 Example.w0 = (inr (X', y'), w') /\
      Forall2 (block_spec (self w') Example.X0 Example.y0)
              (sampling_strategy_ (self Example.w0)) blocks /\
      rows X' = rows Example.X0 ++ concat (map (fun b => rows (block_X b)) blocks) /\
      y' = Example.y0 ++ concat (map (fun ck => repeat (fst ck) (snd ck))
                                     (sampling_strategy_ (self Example.w0))) /\
      sample_indices_ (self w') =
        Some (seq 0 (length (rows Example.X0)) ++ concat (map block_indices blocks)) /\
      original_rows_first Example.X0 Example.y0 (X', y')) /\
  (exists X' y' wl',
      Legacy._sample Example.X0 Example.y0 Example.legacy0 = (inr (X', y'), wl') /\
      original_rows_first Example.X0 Example.y0 (X', y')).
Proof.
  apply (@output_is_original_then_blocks LCG.random_state LCGFacts.laws);
    reflexivity.
Defined.

(** C2, as stated, fails: with seed [42] the run on three rows returns the
    three input rows first, followed by the block of class [1]. *)
Lemma final_permutation_counterexample :
  ~ rows_permuted_away Example.X0 Example.y0 Example.w0.
Proof.
  intros H.
  assert (E : _fit_resample Example.X0 Example.y0 Example.w0 =
     (inr (mkMatrix Dense 1 [[1%R]; [2%R]; [3%R]; [3%R]], [0; 0; 1; 1]%Z),
      mkWorld (@mkHeap LCG.random_state 7%Z 11%Z (snd (LCG.choice 42%Z [2%nat] 1)))
              (set_sample_indices_ [0; 1; 2; 2]%nat Example.sampler0)))
    by reflexivity.
  apply (H _ _ E). split; reflexivity.
Qed.

(** ** Runs on the same inputs *)

Section Determinism.

Context {rs : RandomState}.

Lemma check_random_state_eq {O} arg (w : World O) :
  check_random_state arg w = (inr (ref_of arg), seeded arg w).
Proof. destruct arg; reflexivity. Qed.

Lemma fit_resample_unfold X y (w : ROS) :
  _fit_resample X y w =
  let r := ref_of (random_state (self w)) in
  match resolve_shrinkage (seeded (random_state (self w)) w) with
  | (inl e, w1) => (inl e, w1)
  | (inr _, w1) =>
      match resample_loop r X y (sampling_strategy_ (self w1))
              ([X], [y], seq 0 (length (rows X))) w1 with
      | (inl e, w2) => (inl e, w2)
      | (inr res, w2) =>
          (inr (vstack (format X) (n_cols X) (fst (fst res)), concat (snd (fst res))),
           mkWorld (heap w2) (set_sample_indices_ (snd res) (self w2)))
      end
  end.
Proof.
  unfold _fit_resample. unfold bind at 1, gets at 1.
  unfold bind at 1. rewrite check_random_state_eq.
  unfold bind at 1.
  destruct (resolve_shrinkage _) as [[e|u] w1]; [reflexivity|].
  unfold bind at 1, gets at 1. unfold bind at 1. cbn [shape fst].
  destruct (resample_loop _ _ _ _ _ w1) as [[e|[[Xs ys] si]] w2]; reflexivity.
Qed.

Lemma resolve_shrinkage_unfold (w : ROS) :
  resolve_shrinkage w =
  if smoothed_bootstrap (self w) then
    match shrinkage (self w) with
    | Shrinkage_real r =>
        (inr tt, mkWorld (heap w)
                   (set_shrinkage_ (map (fun kv => (fst kv, r)) (sampling_strategy_ (self w)))
                                   (self w)))
    | Shrinkage_dict d =>
        match keys_difference (sampling_strategy_ (self w)) d with
        | _ :: _ => (inl ValueError_missing_shrinkage, w)
        | [] => (inr tt, mkWorld (heap w) (set_shrinkage_ d (self w)))
        end
    end
  else (inr tt, w).
Proof.
  unfold resolve_shrinkage. unfold bind at 1, gets at 1.
  destruct (smoothed_bootstrap (self w)); [|reflexivity].
  unfold bind at 1, gets at 1. unfold bind at 1, gets at 1.
  destruct (shrinkage (self w)) as [r|d]; [reflexivity|].
  destruct (keys_difference _ d); reflexivity.
Qed.

Lemma seeded_self {O} arg (w : World O) : self (seeded arg w) = self w.
Proof. destruct arg; reflexivity. Qed.

Lemma seeded_agree (w1 w2 : ROS) :
  same_run_inputs w1 w2 ->
  read_rs (ref_of (random_state (self w1))) (heap (seeded (random_state (self w1)) w1)) =
  read_rs (ref_of (random_state (self w1))) (heap (seeded (random_state (self w1)) w2)).
Proof.
  intros (_ & _ & _ & _ & Hg).
  destruct (random_state (self w1)); cbn in *; auto.
Qed.

Lemma fit_resample_same_outcome X y (w1 w2 : ROS) :
  same_run_inputs w1 w2 -> same_outcome (_fit_resample X y) w1 w2.
Proof.
  intros Hin. pose proof (seeded_agree Hin) as Hg.
  destruct Hin as (Hrs & Hst & Hsb & Hsh & _).
  unfold same_outcome. rewrite !fit_resample_unfold, <- Hrs.
  set (arg := random_state (self w1)) in *. set (r := ref_of arg) in *.
  set (v1 := seeded arg w1) in *. set (v2 := seeded arg w2) in *.
  assert (Hs1 : self v1 = self w1) by apply seeded_self.
  assert (Hs2 : self v2 = self w2) by apply seeded_self.
  rewrite !resolve_shrinkage_unfold, Hs1, Hs2, <- Hsb, <- Hst.
  cbv zeta.
  assert (Hloop : forall t1 t2 b,
             agree r b t1 t2 ->
             sampling_strategy_ (self t1) = sampling_strategy_ (self t2) ->
             same_outcome
               (fun t =>
                  match resample_loop r X y (sampling_strategy_ (self t))
                          ([X], [y], seq 0 (length (rows X))) t with
                  | (inl e, w2) => (inl e, w2)
                  | (inr res, w2) =>
                      (inr (vstack (format X) (n_cols X) (fst (fst res)),
                            concat (snd (fst res))),
                       mkWorld (heap w2) (set_sample_indices_ (snd res) (self w2)))
                  end) t1 t2).
  { intros t1 t2 b Ha Hstr. unfold same_outcome. rewrite <- Hstr.
    destruct (resample_loop_agree X y (sampling_strategy_ (self t1))
                ([X], [y], seq 0 (length (rows X))) Ha) as [E _].
    destruct (resample_loop r X y _ _ t1) as [[e1|res1] u1],
             (resample_loop r X y _ _ t2) as [[e2|res2] u2];
      cbn [fst snd] in *; inversion E; subst; split; try reflexivity;
      intros out Ho; try discriminate; reflexivity. }
  destruct (smoothed_bootstrap (self w1)) eqn:Esb.
  - rewrite <- (Hsh eq_refl).
    destruct (shrinkage (self w1)) as [x|d].
    + apply (Hloop _ _ true); [|cbn; congruence].
      unfold agree. cbn. rewrite Esb, <- Hsb. auto.
    + destruct (keys_difference (sampling_strategy_ (self w1)) d).
      * apply (Hloop _ _ true); [|cbn; congruence].
        unfold agree. cbn. rewrite Esb, <- Hsb. auto.
      * split; [reflexivity|]. cbn. discriminate.
  - apply (Hloop _ _ false); [|congruence].
    unfold agree. rewrite Hs1, Hs2, <- Hsb, Esb. repeat split; auto. discriminate.
Qed.

Lemma fit_resample_public_unfold X y (w : ROS) :
  fit_resample X y w =
  if Nat.eqb (length (rows X)) (length y) then
    match check_sampling_strategy (sampling_strategy (self w)) y with
    | inl e => (inl e, w)
    | inr s => _fit_resample X y (mkWorld (heap w) (set_sampling_strategy_ s (self w)))
    end
  else (inl ShapeMismatchError, w).
Proof.
  unfold fit_resample. destruct (Nat.eqb _ _); [|reflexivity].
  unfold bind at 1, gets at 1. unfold bind at 1, lift_exn at 1.
  destruct (check_sampling_strategy _ y); reflexivity.
Qed.

(** C5 -- two invocations with the same feature matrix, labels, strategy,
    smoothing parameters and the same integer seed have the same outcome: the
    same returned arrays and the same [sample_indices_], whatever the states
    of the other generators and the attributes left by earlier fits.  Stated
    for [_fit_resample] on equal resolved strategies and for [fit_resample] on
    equal [sampling_strategy] arguments. *)
Theorem fit_resample_deterministic (X : matrix) (y : list Z) (seed : Z) (w1 w2 : ROS) :
  random_state (self w1) = RS_int seed ->
  random_state (self w2) = RS_int seed ->
  smoothed_bootstrap (self w1) = smoothed_bootstrap (self w2) ->
  shrinkage (self w1) = shrinkage (self w2) ->
  (sampling_strategy_ (self w1) = sampling_strategy_ (self w2) ->
   same_outcome (_fit_resample X y) w1 w2) /\
  (sampling_strategy (self w1) = sampling_strategy (self w2) ->
   same_outcome (fit_resample X y) w1 w2).
Proof.
  intros H1 H2 Hsb Hsh.
  assert (Hcore : forall v1 v2 : ROS,
             random_state (self v1) = RS_int seed ->
             random_state (self v2) = RS_int seed ->
             smoothed_bootstrap (self v1) = smoothed_bootstrap (self v2) ->
             shrinkage (self v1) = shrinkage (self v2) ->
             sampling_strategy_ (self v1) = sampling_strategy_ (self v2) ->
             same_outcome (_fit_resample X y) v1 v2).
  { intros v1 v2 E1 E2 Esb Esh Est. apply fit_resample_same_outcome.
    unfold same_run_inputs. rewrite E1, E2. auto. }
  split; intros Hst; [now apply Hcore|].
  unfold same_outcome. rewrite !fit_resample_public_unfold, <- Hst.
  destruct (Nat.eqb _ _); [|split; [reflexivity|discriminate]].
  destruct (check_sampling_strategy _ y) as [e|s]; [split; [reflexivity|discriminate]|].
  now apply Hcore.
Qed.

(** C4 -- with the smoothed bootstrap and a shrinkage mapping that omits a
    class of the resolved strategy, [_fit_resample] raises before any draw:
    no attribute of the sampler is written ([shrinkage_] and
    [sample_indices_] keep their values), no existing generator advances, and
    a generator allocated for an integer seed is still in its seeded state. *)
Theorem missing_shrinkage_raises_first
    (X : matrix) (y : list Z) (w : ROS) (d : list (Z * R)) (c : Z) :
  smoothed_bootstrap (self w) = true ->
  shrinkage (self w) = Shrinkage_dict d ->
  In c (keys (sampling_strategy_ (self w))) ->
  mem c (keys d) = false ->
  exists w',
    _fit_resample X y w = (inl ValueError_missing_shrinkage, w') /\
    self w' = self w /\
    np_random (heap w') = np_random (heap w) /\
    caller_rs (heap w') = caller_rs (heap w) /\
    local_rs (heap w') = match random_state (self w) with
                         | RS_int seed => rs_seed seed
                         | _ => local_rs (heap w)
                         end.
Proof.
  intros Hsb Hsh Hc Hm.
  rewrite fit_resample_unfold, resolve_shrinkage_unfold, seeded_self, Hsb, Hsh.
  cbv zeta.
  destruct (keys_difference (sampling_strategy_ (self w)) d) as [|k l] eqn:Ed.
  - exfalso. apply keys_difference_nil in Ed. rewrite forallb_forall in Ed.
    rewrite (Ed c Hc) in Hm. discriminate.
  - eexists. split; [reflexivity|].
    destruct (random_state (self w)); cbn; auto.
Qed.

End Determinism.

Lemma fit_resample_deterministic_witness :
  same_outcome (_fit_resample Example.X0 Example.y0) Example.w0 Example.w0_refit /\
  same_outcome (fit_resample Example.X0 Example.y0) Example.w0 Example.w0_refit.
Proof.
  destruct (@fit_resample_deterministic LCG.random_state Example.X0 Example.y0 42%Z
              Example.w0 Example.w0_refit eq_refl eq_refl eq_refl eq_refl) as [H1 H2].
  split; [apply H1|apply H2]; reflexivity.
Defined.

Lemma missing_shrinkage_raises_first_witness :
  exists w',
    _fit_resample Example.X0 Example.y0 Example.w0_missing
      = (inl ValueError_missing_shrinkage, w') /\
    self w' = self Example.w0_missing /\
    np_random (heap w') = np_random (heap Example.w0_missing) /\
    caller_rs (heap w') = caller_rs (heap Example.w0_missing) /\
    local_rs (heap w') = 42%Z.
Proof.
  apply (@missing_shrinkage_raises_first LCG.random_state Example.X0 Example.y0
           Example.w0_missing [(0%Z, 1%R)] 1%Z eq_refl eq_refl);
    [simpl; auto|reflexivity].
Defined.

(** ** Without the smoothed bootstrap *)

Section PlainBootstrap.

Context {rs : RandomState} {laws : RandomStateLaws rs}.

Lemma safe_indexing_error {A} (a : list A) idx e :
  _safe_indexing a idx = inl e -> e = IndexError.
Proof.
  induction idx as [|i idx IH]; simpl; [discriminate|].
  destruct (nth_error a i); [|intros H; inversion H; reflexivity].
  destruct (_safe_indexing a idx); [|discriminate].
  intros H; inversion H; subst. now apply IH.
Qed.

Lemma choice_error {O} r a k (w w' : World O) e :
  choice r a k w = (inl e, w') -> e = ValueError_empty_population /\ w' = w.
Proof.
  unfold choice. destruct a as [|x a]; destruct k; rewrite ?draw_eq;
    try discriminate.
  unfold raise. intros H; inversion H; auto.
Qed.

Lemma resample_class_plain_error r X y c k (w w' : ROS) e :
  smoothed_bootstrap (self w) = false ->
  resample_class r X y c k w = (inl e, w') ->
  (e = ValueError_empty_population \/ e = IndexError) /\ self w' = self w.
Proof.
  intros Hsb. unfold resample_class. unfold bind at 1.
  destruct (choice r (flatnonzero_eq y c) k w) as [[e0|boot] w1] eqn:Hc.
  - apply choice_error in Hc as [-> ->]. intros H; inversion H; auto.
  - apply choice_inv in Hc as (_ & _ & Hself).
    unfold bind at 1, gets at 1. rewrite Hself, Hsb.
    unfold bind, lift_exn, ret.
    destruct (_safe_indexing (rows X) boot) eqn:E1.
    + intros H; inversion H; subst. split; [|assumption].
      right. eapply safe_indexing_error; eauto.
    + destruct (_safe_indexing y boot) eqn:E2; [|discriminate].
      intros H; inversion H; subst. split; [|assumption].
      right. eapply safe_indexing_error; eauto.
Qed.

Lemma resample_loop_plain_error r X y items :
  forall acc (w w' : ROS) e,
    smoothed_bootstrap (self w) = false ->
    resample_loop r X y items acc w = (inl e, w') ->
    (e = ValueError_empty_population \/ e = IndexError) /\ self w' = self w.
Proof.
  induction items as [|[c k] items IH]; intros acc w w' e Hsb; cbn [resample_loop].
  - discriminate.
  - unfold bind at 1.
    destruct (resample_class r X y c k w) as [[e0|[[boot Xn] yn]] w1] eqn:Hc.
    + intros H; inversion H; subst. eapply resample_class_plain_error; eauto.
    + apply resample_class_inv in Hc as [_ Hself]. destruct acc as [[Xs ys] si].
      intros H. apply IH in H; [|now rewrite Hself]. rewrite <- Hself. exact H.
Qed.

(** C10 -- with [smoothed_bootstrap = False] the shrinkage parameter is
    neither read nor validated: two samplers that differ only in [shrinkage]
    (and in a stale [shrinkage_]) have the same outcome on every input, the
    attribute [shrinkage_] is not written, an exception can only come from
    the draw or the indexing, and on valid inputs both runs return the same
    arrays. *)
Theorem shrinkage_unused_without_smoothing
    (X : matrix) (y : list Z) (w1 w2 : ROS) :
  smoothed_bootstrap (self w1) = false ->
  smoothed_bootstrap (self w2) = false ->
  heap w1 = heap w2 ->
  random_state (self w1) = random_state (self w2) ->
  sampling_strategy_ (self w1) = sampling_strategy_ (self w2) ->
  same_outcome (_fit_resample X y) w1 w2 /\
  shrinkage_ (self (snd (_fit_resample X y w1))) = shrinkage_ (self w1) /\
  (forall e, fst (_fit_resample X y w1) = inl e ->
             e = ValueError_empty_population \/ e = IndexError) /\
  (valid_input (self w1) X y = true ->
   exists out, fst (_fit_resample X y w1) = inr out /\
               fst (_fit_resample X y w2) = inr out).
Proof.
  intros Hsb1 Hsb2 Hh Hrs Hst.
  assert (Hsame : same_outcome (_fit_resample X y) w1 w2).
  { apply fit_resample_same_outcome. unfold same_run_inputs.
    rewrite Hsb1, Hsb2, Hh. repeat split; auto; try discriminate.
    destruct (random_state (self w1)); auto. }
  split; [exact Hsame|].
  assert (Herr : shrinkage_ (self (snd (_fit_resample X y w1))) = shrinkage_ (self w1) /\
                 (forall e, fst (_fit_resample X y w1) = inl e ->
                            e = ValueError_empty_population \/ e = IndexError)).
  { rewrite fit_resample_unfold, resolve_shrinkage_unfold, seeded_self, Hsb1.
    cbv zeta. set (v := seeded (random_state (self w1)) w1).
    assert (Hv : self v = self w1) by apply seeded_self.
    destruct (resample_loop (ref_of (random_state (self w1))) X y
                (sampling_strategy_ (self v)) ([X], [y], seq 0 (length (rows X))) v)
      as [[e|[[Xs ys] si]] v'] eqn:Hloop; cbn [fst snd self].
    - apply resample_loop_plain_error in Hloop as [He Hs]; [|now rewrite Hv].
      split; [now rewrite Hs, Hv|]. intros e' E; inversion E; subst; exact He.
    - apply resample_loop_inv in Hloop as (_ & _ & _ & _ & _ & Hs).
      cbn. split; [now rewrite Hs, Hv|discriminate]. }
  destruct Herr as [Hk He]. split; [exact Hk|]. split; [exact He|].
  intros Hv. destruct (fit_resample_ok _ _ _ Hv) as (X' & y' & w' & Hrun).
  exists (X', y'). destruct Hsame as [E _]. rewrite <- E, Hrun. auto.
Qed.

End PlainBootstrap.

Lemma shrinkage_unused_without_smoothing_witness :
  same_outcome (_fit_resample Example.X0 Example.y0)
               Example.w0 Example.w0_empty_shrinkage /\
  shrinkage_ (self (snd (_fit_resample Example.X0 Example.y0 Example.w0))) = None /\
  (forall e, fst (_fit_resample Example.X0 Example.y0 Example.w0) = inl e ->
             e = ValueError_empty_population \/ e = IndexError) /\
  (valid_input (self Example.w0) Example.X0 Example.y0 = true ->
   exists out, fst (_fit_resample Example.X0 Example.y0 Example.w0) = inr out /\
               fst (_fit_resample Example.X0 Example.y0 Example.w0_empty_shrinkage)
               = inr out).
Proof.
  apply (@shrinkage_unused_without_smoothing LCG.random_state LCGFacts.laws
           Example.X0 Example.y0 Example.w0 Example.w0_empty_shrinkage);
    reflexivity.
Defined.

(** ** The scenario with 100 and 30 rows *)

Lemma count_insert_two lo hi a b c :
  (lo < hi)%Z -> c = lo \/ c = hi ->
  count_insert c (two_class_stats lo hi a b) =
  two_class_stats lo hi (if Z.eq_dec c lo then S a else a)
                        (if Z.eq_dec c hi then S b else b).
Proof.
  intros Hlt Hc.
  assert (E1 : Z.eqb lo hi = false) by (apply Z.eqb_neq; lia).
  assert (E2 : Z.eqb hi lo = false) by (apply Z.eqb_neq; lia).
  assert (E3 : Z.ltb lo hi = true) by (apply Z.ltb_lt; lia).
  assert (E4 : Z.ltb hi lo = false) by (apply Z.ltb_ge; lia).
  unfold two_class_stats.
  destruct Hc as [-> | ->].
  - destruct (Z.eq_dec lo lo) as [_|]; [|congruence].
    destruct (Z.eq_dec lo hi); [lia|].
    destruct a, b; simpl; rewrite ?Z.eqb_refl, ?E1, ?E3; reflexivity.
  - destruct (Z.eq_dec hi hi) as [_|]; [|congruence].
    destruct (Z.eq_dec hi lo); [lia|].
    destruct a, b; simpl; rewrite ?Z.eqb_refl, ?E2, ?E4; simpl;
      rewrite ?Z.eqb_refl; reflexivity.
Qed.

Lemma target_stats_two lo hi y :
  (lo < hi)%Z -> Forall (fun c => c = lo \/ c = hi) y ->
  target_stats y =
  two_class_stats lo hi (count_occ Z.eq_dec y lo) (count_occ Z.eq_dec y hi).
Proof.
  intros Hlt. induction 1 as [|c y Hc _ IH]; [reflexivity|].
  unfold target_stats in *. cbn [fold_right]. rewrite IH, count_insert_two by auto.
  cbn [count_occ]. destruct (Z.eq_dec c lo), (Z.eq_dec c hi); reflexivity.
Qed.

Lemma two_class_length A B y :
  A <> B -> Forall (fun c => c = A \/ c = B) y ->
  length y = (count_occ Z.eq_dec y A + count_occ Z.eq_dec y B)%nat.
Proof.
  intros Hne. induction 1 as [|c y Hc _ IH]; [reflexivity|].
  cbn [count_occ length]. destruct (Z.eq_dec c A), (Z.eq_dec c B); subst; lia.
Qed.

Lemma auto_strategy_100_30 A B y :
  A <> B -> Forall (fun c => c = A \/ c = B) y ->
  count_occ Z.eq_dec y A = 100%nat -> count_occ Z.eq_dec y B = 30%nat ->
  check_sampling_strategy Strategy_auto y = inr [(A, 0%nat); (B, 70%nat)] \/
  check_sampling_strategy Strategy_auto y = inr [(B, 70%nat); (A, 0%nat)].
Proof.
  intros Hne Hall HA HB. unfold check_sampling_strategy.
  destruct (Z.lt_total A B) as [Hlt|[E|Hlt]]; [|congruence|].
  - left. rewrite (target_stats_two Hlt Hall), HA, HB. reflexivity.
  - right. rewrite (@target_stats_two B A y Hlt), HA, HB; [reflexivity|].
    eapply Forall_impl; [|exact Hall]. intros c [Hc|Hc]; auto.
Qed.

Section Scenario.

Context {rs : RandomState} {laws : RandomStateLaws rs}.

(** C3 (as amended) -- for labels with 100 rows of class [A] and 30 rows of
    class [B] and the ['auto'] strategy, [fit_resample] returns 200 rows, 100
    of each class; [sample_indices_] has 200 entries: the 130 original
    indices in order, then 70 indices of rows labelled [B]. *)
Theorem equalize_100_30_scenario (A B : Z) (X : matrix) (y : list Z) (w : ROS) :
  A <> B ->
  Forall (fun c => c = A \/ c = B) y ->
  count_occ Z.eq_dec y A = 100%nat ->
  count_occ Z.eq_dec y B = 30%nat ->
  length (rows X) = length y ->
  sampling_strategy (self w) = Strategy_auto ->
  (smoothed_bootstrap (self w) = true ->
   forall d, shrinkage (self w) = Shrinkage_dict d ->
             mem A (keys d) = true /\ mem B (keys d) = true) ->
  exists X' y' w' boot,
    fit_resample X y w = (inr (X', y'), w') /\
    length (rows X') = 200%nat /\
    length y' = 200%nat /\
    count_occ Z.eq_dec y' A = 100%nat /\
    count_occ Z.eq_dec y' B = 100%nat /\
    sample_indices_ (self w') = Some (seq 0 130 ++ boot) /\
    length boot = 70%nat /\
    Forall (fun i => nth_error y i = Some B) boot.
Proof.
  intros Hne Hall HA HB Hlen Hauto Hsh.
  pose proof (two_class_length Hne Hall) as Hy. rewrite HA, HB in Hy. cbn in Hy.
  rewrite fit_resample_public_unfold, Hlen, Nat.eqb_refl, Hauto.
  assert (HinA : mem A y = true) by (apply mem_In, (count_occ_In Z.eq_dec); lia).
  assert (HinB : mem B y = true) by (apply mem_In, (count_occ_In Z.eq_dec); lia).
  assert (Hcore : forall s,
            s = [(A, 0%nat); (B, 70%nat)] \/ s = [(B, 70%nat); (A, 0%nat)] ->
            exists X' y' w' boot,
              _fit_resample X y (mkWorld (heap w) (set_sampling_strategy_ s (self w)))
                = (inr (X', y'), w') /\
              length (rows X') = 200%nat /\ length y' = 200%nat /\
              count_occ Z.eq_dec y' A = 100%nat /\ count_occ Z.eq_dec y' B = 100%nat /\
              sample_indices_ (self w') = Some (seq 0 130 ++ boot) /\
              length boot = 70%nat /\
              Forall (fun i => nth_error y i = Some B) boot).
  { intros s Hs.
    set (v := mkWorld (heap w) (set_sampling_strategy_ s (self w))).
    assert (Hv : valid_input (self v) X y = true).
    { unfold valid_input. cbn [v self set_sampling_strategy_ sampling_strategy_
                                 smoothed_bootstrap shrinkage].
      rewrite Hlen, Nat.eqb_refl.
      assert (Hk : forall f : Z -> bool, f A = true -> f B = true ->
                                         forallb f (keys s) = true).
      { intros f fA fB. destruct Hs as [-> | ->]; cbn; rewrite fA, fB; reflexivity. }
      rewrite (Hk _ HinA HinB). cbn [andb].
      destruct (smoothed_bootstrap (self w)) eqn:Esb; [|reflexivity]. cbn [negb orb].
      destruct (shrinkage (self w)) as [x|d] eqn:Ed; [reflexivity|].
      destruct (Hsh eq_refl d eq_refl). now apply Hk. }
    destruct (fit_resample_ok _ _ _ Hv) as (X' & y' & w' & Hrun).
    destruct (fit_resample_inv _ _ _ Hrun) as (blocks & HF & -> & -> & Hsi & Hsb').
    destruct (blocks_shape HF) as (L1 & L2 & L3).
    pose proof (blocks_labels HF) as HL.
    cbn [v self set_sampling_strategy_ sampling_strategy_] in *.
    exists (mkMatrix (format X) (n_cols X)
              (rows X ++ concat (map (fun b => rows (block_X b)) blocks))),
           (y ++ concat (map block_y blocks)), w',
           (concat (map block_indices blocks)).
    split; [exact Hrun|]. cbn [rows].
    rewrite !length_app, !count_occ_app, L1, L2, L3, HA, HB, Hlen, Hy in *.
    assert (Hsum : list_sum (map snd s) = 70%nat)
      by (destruct Hs as [-> | ->]; reflexivity).
    assert (Hlab : length (concat (map (fun ck => repeat (fst ck) (snd ck)) s)) = 70%nat /\
                   count_occ Z.eq_dec (concat (map (fun ck => repeat (fst ck) (snd ck)) s)) A
                   = 0%nat /\
                   count_occ Z.eq_dec (concat (map (fun ck => repeat (fst ck) (snd ck)) s)) B
                   = 70%nat).
    { destruct Hs as [-> | ->]; cbn [map concat fst snd]; rewrite ?app_nil_r;
        change (repeat A 0) with (@nil Z); rewrite ?app_nil_r; cbn [app];
        rewrite repeat_length, count_occ_repeat_neq, count_occ_repeat_eq by congruence;
        auto. }
    destruct Hlab as (La & Lb & Lc). rewrite La, Lb, Lc, Hsum.
    repeat split; try reflexivity; try assumption.
    eapply Forall_impl; [|exact HL]. intros i (ck & Hin & Hnz & Hn).
    destruct Hs as [-> | ->]; cbn in Hin;
      destruct Hin as [<-|[<-|[]]]; cbn in Hnz, Hn; congruence. }
  destruct (auto_strategy_100_30 Hne Hall HA HB) as [E|E]; rewrite E; apply Hcore; auto.
Qed.

End Scenario.

Lemma equalize_100_30_scenario_witness :
  exists X' y' w' boot,
    fit_resample Example.X1 Example.y1 Example.w1 = (inr (X', y'), w') /\
    length (rows X') = 200%nat /\
    length y' = 200%nat /\
    count_occ Z.eq_dec y' 0%Z = 100%nat /\
    count_occ Z.eq_dec y' 1%Z = 100%nat /\
    sample_indices_ (self w') = Some (seq 0 130 ++ boot) /\
    length boot = 70%nat /\
    Forall (fun i => nth_error Example.y1 i = Some 1%Z) boot.
Proof.
  apply (@equalize_100_30_scenario LCG.random_state LCGFacts.laws 0%Z 1%Z
           Example.X1 Example.y1 Example.w1).
  - discriminate.
  - unfold Example.y1. apply Forall_app. split; apply Forall_forall;
      intros c H; apply repeat_spec in H; auto.
  - reflexivity.
  - reflexivity.
  - reflexivity.
  - reflexivity.
  - discriminate.
Defined.

(** C3, as stated, fails on the stored provenance: on 100 rows of class [0]
    followed by 30 rows of class [1], with seed [42], the run returns but
    [sample_indices_] is not an array of 70 indices of rows of class [1]. *)
Lemma provenance_length_counterexample :
  exists out w',
    fit_resample Example.X1 Example.y1 Example.w1 = (inr out, w') /\
    ~ provenance_of_added_rows_only Example.y1 1%Z w'.
Proof.
  pose (v := mkWorld Example.heap0
               (set_sampling_strategy_ [(0%Z, 0%nat); (1%Z, 70%nat)] Example.sampler1)).
  assert (E : fit_resample Example.X1 Example.y1 Example.w1
              = _fit_resample Example.X1 Example.y1 v)
    by (rewrite fit_resample_public_unfold; reflexivity).
  assert (Hv : valid_input (self v) Example.X1 Example.y1 = true) by reflexivity.
  destruct (@fit_resample_ok LCG.random_state LCGFacts.laws _ _ _ Hv)
    as (X' & y' & w' & Hrun).
  destruct (@fit_resample_inv LCG.random_state LCGFacts.laws _ _ _ _ _ _ Hrun)
    as (blocks & _ & _ & _ & Hsi & _).
  exists (X', y'), w'. split; [now rewrite E|].
  intros (si & Hs & Hl & _).
  assert (Hs' : si = seq 0 (length (rows Example.X1))
                     ++ concat (map block_indices blocks)) by congruence.
  rewrite Hs', length_app, length_seq in Hl.
  change (length (rows Example.X1)) with (length (repeat [0%R] 130)) in Hl.
  rewrite repeat_length in Hl. lia.
Qed.

(** ** The smoothed bootstrap *)

Open Scope R_scope.

Lemma smoothing_constant_total (n f : nat) (C : R) :
  smoothing_constant n f = inr C -> C = spec_smoothing_constant f n.
Proof.
  unfold smoothing_constant, spec_smoothing_constant.
  destruct (Nat.eqb _ _); [discriminate|]. intros H; inversion H; clear H.
  rewrite mult_INR, !plus_INR. replace (INR 2) with 2 by (simpl; lra).
  replace (INR 4) with 4 by (simpl; lra). reflexivity.
Qed.

Lemma Rpower_base_inj (a b e : R) :
  0 < a -> 0 < b -> e <> 0 -> Rpower a e = Rpower b e -> a = b.
Proof.
  intros Ha Hb He H. unfold Rpower in H. apply exp_inv in H.
  apply ln_inv; [assumption|assumption|].
  apply (Rmult_eq_reg_l e); assumption.
Qed.

Lemma variance_singleton (x : R) : variance [x] = 0.
Proof. unfold variance, mean, Rsum. simpl. field. Qed.

Lemma map_const {A B} (c : B) (l : list A) :
  map (fun _ => c) l = repeat c (length l).
Proof. induction l; simpl; congruence. Qed.

Lemma scale_singleton (X : matrix) (row : list R) :
  X_class_scale_of X [row] = repeat 0 (n_cols X).
Proof.
  unfold X_class_scale_of, sparse_scale_axis0, np_std_axis0, std, column.
  cbn [map].
  assert (E : forall j : nat, sqrt (variance [nth j row 0]) = 0)
    by (intros j; rewrite variance_singleton; apply sqrt_0).
  destruct (issparse_fmt (format X));
    rewrite (map_ext _ (fun _ => 0) E), map_const, length_seq; reflexivity.
Qed.

Lemma nth_repeat_0 (j m : nat) : nth j (repeat 0 m) 0 = 0.
Proof. revert j; induction m; intros [|j]; simpl; auto. Qed.

Lemma diagflat_zero (m : nat) : diagflat (repeat 0 m) = repeat (repeat 0 m) m.
Proof.
  unfold diagflat. rewrite repeat_length.
  assert (E : forall i : nat,
             map (fun j => if Nat.eqb i j then nth i (repeat 0 m) 0 else 0) (seq 0 m)
             = repeat 0 m).
  { intros i. rewrite <- (length_seq m 0) at 2. rewrite <- map_const.
    apply map_ext. intros j. rewrite nth_repeat_0. now destruct (Nat.eqb i j). }
  rewrite (map_ext _ (fun _ => repeat 0 m) E), map_const, length_seq. reflexivity.
Qed.

Lemma dot_vec_zero (a : list R) (m : nat) : dot_vec a (repeat 0 m) = 0.
Proof.
  unfold dot_vec, Rsum. revert m; induction a as [|x a IH]; intros [|m]; simpl; auto.
  rewrite IH. lra.
Qed.

Lemma column_zero (j f m : nat) : column j (repeat (repeat 0 f) m) = repeat 0 m.
Proof.
  unfold column. induction m as [|m IH]; simpl; [reflexivity|].
  rewrite IH, nth_repeat_0. reflexivity.
Qed.

Lemma dot_zero (f : nat) (noise : list (list R)) :
  dot f noise (repeat (repeat 0 f) f) = repeat (repeat 0 f) (length noise).
Proof.
  unfold dot. rewrite <- map_const. apply map_ext. intros a.
  rewrite <- (length_seq f 0) at 2. rewrite <- map_const. apply map_ext. intros j.
  rewrite column_zero. apply dot_vec_zero.
Qed.

Lemma vec_add_zero (row : list R) : vec_add (repeat 0 (length row)) row = row.
Proof.
  unfold vec_add. induction row as [|x row IH]; simpl; [reflexivity|].
  rewrite IH. f_equal. lra.
Qed.

Lemma mat_add_zero (f k : nat) (row : list R) :
  length row = f ->
  mat_add (repeat (repeat 0 f) k) (repeat row k) = repeat row k.
Proof.
  intros <-. unfold mat_add. induction k as [|k IH]; simpl; [reflexivity|].
  rewrite IH, vec_add_zero. reflexivity.
Qed.

Lemma smoothing_matrix_zero (sh C : R) (f : nat) :
  smoothing_matrix_of sh C (repeat 0 f) = repeat (repeat 0 f) f.
Proof.
  unfold smoothing_matrix_of. rewrite <- diagflat_zero. f_equal.
  induction f as [|f IH]; simpl; [reflexivity|]. rewrite IH. f_equal. lra.
Qed.

Close Scope R_scope.

Lemma safe_indexing_single {A} (a : list A) (i : nat) (x : A) idx l :
  nth_error a i = Some x ->
  Forall (fun j => j = i) idx ->
  _safe_indexing a idx = inr l -> l = repeat x (length idx).
Proof.
  intros Hx Hall H. apply safe_indexing_inv in H.
  induction H as [|j z idx l Hz _ IH]; [reflexivity|].
  inversion Hall; subst. simpl. f_equal; [congruence|auto].
Qed.

Section SmoothedBootstrap.

Context {rs : RandomState} {laws : RandomStateLaws rs}.

Lemma smoothed_run_blocks (X : matrix) (y : list Z) (w : ROS) :
  valid_input (self w) X y = true ->
  smoothed_bootstrap (self w) = true ->
  exists X' y' w' (blocks : list block),
    _fit_resample X y w = (inr (X', y'), w') /\
    rows X' = rows X ++ concat (map (fun b => rows (block_X b)) blocks) /\
    Forall2
      (fun ck b =>
         length (block_indices b) = snd ck /\
         Forall (fun i => nth_error y i = Some (fst ck)) (block_indices b) /\
         smoothed_block (self w') X y (fst ck) (snd ck) b)
      (sampling_strategy_ (self w)) blocks.
Proof.
  intros Hv Hsb.
  destruct (fit_resample_ok _ _ _ Hv) as (X' & y' & w' & Hrun).
  destruct (fit_resample_inv _ _ _ Hrun) as (blocks & HF & -> & -> & Hsi & Hsb').
  rewrite Hsb in Hsb'.
  do 3 eexists. exists blocks. split; [exact Hrun|]. split; [reflexivity|].
  eapply Forall2_impl; [|exact HF]. intros ck b (Hl & Hi & _ & _ & Hb).
  rewrite Hsb' in Hb. auto.
Qed.

Lemma choice_inv_eq {O} r a k (w w' : World O) boot :
  choice r a k w = (inr boot, w') ->
  boot = fst (rs_choice (read_rs r (heap w)) a k) /\
  w' = mkWorld (write_rs r (snd (rs_choice (read_rs r (heap w)) a k)) (heap w))
               (self w).
Proof.
  unfold choice. intros H.
  assert (D : draw r (fun g => rs_choice g a k) w = (inr boot, w'))
    by (destruct a, k; try discriminate; exact H).
  rewrite draw_eq in D. inversion D; auto.
Qed.

Lemma resample_class_smoothed_inv r X y c k (w w' : ROS) (b : block) :
  smoothed_bootstrap (self w) = true ->
  resample_class r X y c k w = (inr b, w') ->
  (exists d sh,
      shrinkage_ (self w) = Some d /\ dict_get d c = Some sh /\
      smoothed_block_from X y sh
        (spec_smoothing_constant (n_cols X) (length (rows X)))
        (read_rs r (heap w)) c k b) /\
  self w' = self w /\
  read_rs r (heap w') =
    snd (rs_randn (snd (rs_choice (read_rs r (heap w)) (flatnonzero_eq y c) k))
                  k (n_cols X)).
Proof.
  unfold resample_class. intros Hsb H.
  apply bind_inv in H as (boot & w1 & Hc & H).
  apply choice_inv_eq in Hc as [Hboot ->].
  apply bind_inv in H as (sb & w2 & Hg & H). apply gets_inv in Hg as [-> ->].
  cbn [self heap] in H. rewrite Hsb in H. cbn [shape] in H.
  apply bind_inv in H as (C & w2 & H1 & H). apply lift_exn_inv in H1 as [HC ->].
  apply bind_inv in H as (Xc & w2 & H1 & H). apply lift_exn_inv in H1 as [HXc ->].
  apply bind_inv in H as (sh & w2 & H1 & H).
  apply shrinkage_of_inv in H1 as [(d & Hd & Hsh) ->]. cbn [self] in Hd.
  apply bind_inv in H as (noise & w2 & H1 & H). rewrite draw_eq in H1.
  inversion H1; subst noise w2; clear H1. cbn [heap self] in H.
  rewrite read_write_rs in H.
  apply bind_inv in H as (Xb & w2 & H1 & H). apply lift_exn_inv in H1 as [HXb ->].
  apply bind_inv in H as (yn & w2 & H1 & H). apply lift_exn_inv in H1 as [Hyn ->].
  apply ret_inv in H as [E ->]. subst b. cbn [heap self].
  apply smoothing_constant_total in HC. subst C boot.
  split; [|split; [reflexivity|now rewrite read_write_rs]].
  exists d, sh. split; [exact Hd|]. split; [exact Hsh|].
  unfold smoothed_block_from, block_indices, block_X. cbn [fst snd rows].
  split; [reflexivity|]. exists Xc, Xb. auto.
Qed.

Lemma resample_loop_trace r X y d items :
  forall Xs ys si (w w' : ROS) Xs' ys' si',
    smoothed_bootstrap (self w) = true ->
    shrinkage_ (self w) = Some d ->
    resample_loop r X y items (Xs, ys, si) w = (inr (Xs', ys', si'), w') ->
    exists blocks : list block,
      Forall2
        (fun (t : Z * nat * RS) b =>
           exists sh,
             dict_get d (fst (fst t)) = Some sh /\
             smoothed_block_from X y sh
               (spec_smoothing_constant (n_cols X) (length (rows X)))
               (snd t) (fst (fst t)) (snd (fst t)) b)
        (smoothed_trace X y (read_rs r (heap w)) items) blocks /\
      Xs' = Xs ++ map block_X blocks /\
      self w' = self w.
Proof.
  induction items as [|[c k] items IH]; intros Xs ys si w w' Xs' ys' si' Hsb Hd H.
  - apply ret_inv in H as [E ->]. inversion E; subst.
    exists []. simpl. rewrite app_nil_r. repeat split; constructor.
  - cbn [resample_loop] in H.
    apply bind_inv in H as ([[boot Xn] yn] & w1 & H1 & H).
    apply (resample_class_smoothed_inv _ _ _ _ _ _ Hsb) in H1
      as ((d' & sh & Hd' & Hsh & Hb) & Hself & Hg).
    assert (d' = d) by congruence. subst d'.
    apply IH in H as (blocks & HF & -> & Hself'); [|congruence|congruence].
    exists ((boot, Xn, yn) :: blocks). cbn [smoothed_trace].
    split; [|split].
    + constructor; [exists sh; auto|]. rewrite <- Hg. exact HF.
    + unfold block_X at 2. cbn [map fst snd]. now rewrite <- app_assoc.
    + congruence.
Qed.

(** C1 (as amended) -- a smoothed-bootstrap run on valid inputs returns, and
    the constant computed from the shape of [X] is
    [(4 / ((f + 2) * n)) ^ (1 / (f + 4))] with [f] the number of feature
    columns and [n] the row count of the whole matrix [X]; the rows appended
    for each class [c] are exactly
    [noise . diagflat (shrinkage_[c] * constant * X_class_scale) + X[bootstrap_indices]]
    with that one constant for every class, where [bootstrap_indices] is the
    draw of [choice] and [noise] the draw of [randn] made by that class's
    iteration, starting from the generator that [random_state] names. *)
Theorem smoothing_constant_uses_total_rows (X : matrix) (y : list Z) (w : ROS) :
  valid_input (self w) X y = true ->
  smoothed_bootstrap (self w) = true ->
  let arg := random_state (self w) in
  let C := spec_smoothing_constant (n_cols X) (length (rows X)) in
  (sampling_strategy_ (self w) <> [] ->
   smoothing_constant (fst (shape X)) (snd (shape X)) = inr C) /\
  exists X' y' w' (blocks : list block) d,
    _fit_resample X y w = (inr (X', y'), w') /\
    rows X' = rows X ++ concat (map (fun b => rows (block_X b)) blocks) /\
    shrinkage_ (self w') = Some d /\
    Forall2
      (fun (t : Z * nat * RS) b =>
         exists sh,
           dict_get d (fst (fst t)) = Some sh /\
           smoothed_block_from X y sh C (snd t) (fst (fst t)) (snd (fst t)) b)
      (smoothed_trace X y (read_rs (ref_of arg) (heap (seeded arg w)))
                      (sampling_strategy_ (self w)))
      blocks.
Proof.
  intros Hv Hsb arg C. split.
  - intros Hne. destruct (valid_input_In _ _ _ Hv) as [Hlen Hin].
    destruct (sampling_strategy_ (self w)) as [|ck l]; [congruence|].
    inversion Hin as [|? ? Hc _]; subst.
    assert (Hpos : (0 < length (rows X))%nat).
    { rewrite Hlen. destruct y; [contradiction|simpl; lia]. }
    cbn [shape fst snd].
    destruct (smoothing_constant (length (rows X)) (n_cols X)) as [e|C'] eqn:E.
    + unfold smoothing_constant in E.
      replace (Nat.eqb ((n_cols X + 2) * length (rows X)) 0) with false in E
        by (symmetry; apply Nat.eqb_neq; nia).
      discriminate.
    + apply smoothing_constant_total in E. now subst C'.
  - destruct (fit_resample_ok _ _ _ Hv) as (X' & y' & w' & Hrun).
    exists X', y', w'. pose proof Hrun as H. unfold _fit_resample in H.
    apply bind_inv in H as (seed & w0 & H0 & H). apply gets_inv in H0 as [-> ->].
    apply bind_inv in H as (r & w0 & H0 & H). rewrite check_random_state_eq in H0.
    inversion H0; subst r w0; clear H0. fold arg in H.
    apply bind_inv in H as (u & w1 & H1 & H).
    apply resolve_shrinkage_inv in H1 as [Hh1 Hs1].
    rewrite (seeded_self arg w) in Hs1.
    destruct Hs1 as [[Hf _]|(_ & d & Hs1 & _)]; [congruence|].
    apply bind_inv in H as (strategy & w2 & H2 & H). apply gets_inv in H2 as [-> ->].
    apply bind_inv in H as ([[Xs ys] si] & w2 & H2 & H).
    apply (@resample_loop_trace _ _ _ d) in H2 as (blocks & HF & -> & Hs2);
      [|rewrite Hs1; exact Hsb|rewrite Hs1; reflexivity].
    apply bind_inv in H as (u' & w3 & H3 & H).
    unfold update_self, modify in H3. inversion H3; subst u' w3; clear H3.
    apply ret_inv in H as [E ->]. inversion E; subst X' y'; clear E.
    exists blocks, d. split; [exact Hrun|].
    split; [unfold vstack; cbn [rows map concat]; now rewrite map_map|].
    split; [cbn [self]; rewrite Hs2, Hs1; reflexivity|].
    rewrite Hh1, Hs1 in HF. exact HF.
Qed.

(** C6 -- in a smoothed-bootstrap run on valid inputs, for a class with
    exactly one observed row the scale vector is zero and every row appended
    for that class is the donor row itself; the run returns. *)
Theorem single_row_class_copies_donor (X : matrix) (y : list Z) (w : ROS) :
  valid_input (self w) X y = true ->
  smoothed_bootstrap (self w) = true ->
  well_formed X ->
  exists X' y' w' (blocks : list block),
    _fit_resample X y w = (inr (X', y'), w') /\
    rows X' = rows X ++ concat (map (fun b => rows (block_X b)) blocks) /\
    Forall2
      (fun ck b =>
         forall i row,
           flatnonzero_eq y (fst ck) = [i] ->
           nth_error (rows X) i = Some row ->
           X_class_scale_of X [row] = repeat 0%R (n_cols X) /\
           block_indices b = repeat i (snd ck) /\
           rows (block_X b) = repeat row (snd ck))
      (sampling_strategy_ (self w)) blocks.
Proof.
  intros Hv Hsb Hwf.
  destruct (smoothed_run_blocks _ _ _ Hv Hsb)
    as (X' & y' & w' & blocks & Hrun & Hrows & HF).
  do 3 eexists. exists blocks. split; [exact Hrun|]. split; [exact Hrows|].
  eapply Forall2_impl; [|exact HF].
  intros ck b (Hlen & Hlab & sh & C & Xc & noise & Xb & _ & _ & HXc & HXb & Hn & _ & Hr)
         i row Hi Hrow.
  split; [apply scale_singleton|].
  assert (Hall : Forall (fun j => j = i) (block_indices b)).
  { eapply Forall_impl; [|exact Hlab]. intros j Hj.
    apply flatnonzero_In in Hj. rewrite Hi in Hj. destruct Hj as [?|[]]; auto. }
  assert (Hidx : block_indices b = repeat i (snd ck)).
  { rewrite <- Hlen. clear - Hall. induction Hall; simpl; congruence. }
  split; [exact Hidx|].
  rewrite Hi in HXc. cbn in HXc. rewrite Hrow in HXc. inversion HXc; subst Xc.
  pose proof (safe_indexing_single _ Hrow Hall HXb) as E. rewrite Hlen in E.
  rewrite Hr, E, scale_singleton, smoothing_matrix_zero, dot_zero, Hn.
  apply mat_add_zero. unfold well_formed in Hwf. rewrite Forall_forall in Hwf.
  apply Hwf. eapply nth_error_In; eauto.
Qed.

End SmoothedBootstrap.

Lemma smoothing_constant_uses_total_rows_witness :
  let C := spec_smoothing_constant (n_cols Example.X0) (length (rows Example.X0)) in
  (sampling_strategy_ (self Example.w0_smoothed) <> [] ->
   smoothing_constant (fst (shape Example.X0)) (snd (shape Example.X0)) = inr C) /\
  exists X' y' w' (blocks : list block) d,
    _fit_resample Example.X0 Example.y0 Example.w0_smoothed = (inr (X', y'), w') /\
    rows X' = rows Example.X0 ++ concat (map (fun b => rows (block_X b)) blocks) /\
    shrinkage_ (self w') = Some d /\
    Forall2
      (fun (t : Z * nat * @RS LCG.random_state) b =>
         exists sh,
           dict_get d (fst (fst t)) = Some sh /\
           smoothed_block_from Example.X0 Example.y0 sh C
             (snd t) (fst (fst t)) (snd (fst t)) b)
      (smoothed_trace Example.X0 Example.y0
         (read_rs (ref_of (random_state (self Example.w0_smoothed)))
            (heap (seeded (random_state (self Example.w0_smoothed))
                          Example.w0_smoothed)))
         (sampling_strategy_ (self Example.w0_smoothed)))
      blocks.
Proof.
  apply (@smoothing_constant_uses_total_rows LCG.random_state LCGFacts.laws);
    reflexivity.
Defined.

(** C1, as stated, fails: on three rows of one feature, class [1] has one row,
    and the constant computed from the shape of [X] differs from the formula
    applied to the class row count. *)
Lemma smoothing_constant_counterexample :
  class_rows Example.y0 1%Z = 1%nat /\
  exists C, smoothing_constant (fst (shape Example.X0)) (snd (shape Example.X0)) = inr C /\
            C <> spec_smoothing_constant (n_cols Example.X0)
                                         (class_rows Example.y0 1%Z).
Proof.
  split; [reflexivity|]. exists (Rpower (4 / 9) (1 / 5)). split.
  - unfold smoothing_constant.
    change (Nat.eqb ((snd (shape Example.X0) + 2) * fst (shape Example.X0)) 0)
      with false.
    change (INR ((snd (shape Example.X0) + 2) * fst (shape Example.X0)))
      with (INR 9).
    change (INR (snd (shape Example.X0) + 4)) with (INR 5).
    replace (INR 9) with 9%R by (simpl; lra).
    replace (INR 5) with 5%R by (simpl; lra). reflexivity.
  - unfold spec_smoothing_constant.
    change (class_rows Example.y0 1%Z) with 1%nat.
    change (n_cols Example.X0) with 1%nat.
    replace (INR 1) with 1%R by reflexivity.
    replace (1 + 4)%R with 5%R by lra.
    intros E. apply Rpower_base_inj in E; lra.
Qed.

Lemma single_row_class_copies_donor_witness :
  exists X' y' w' (blocks : list block),
    _fit_resample Example.X0 Example.y0 Example.w0_smoothed = (inr (X', y'), w') /\
    rows X' = rows Example.X0 ++ concat (map (fun b => rows (block_X b)) blocks) /\
    Forall2
      (fun ck b =>
         forall i row,
           flatnonzero_eq Example.y0 (fst ck) = [i] ->
           nth_error (rows Example.X0) i = Some row ->
           X_class_scale_of Example.X0 [row] = repeat 0%R (n_cols Example.X0) /\
           block_indices b = repeat i (snd ck) /\
           rows (block_X b) = repeat row (snd ck))
      (sampling_strategy_ (self Example.w0_smoothed)) blocks.
Proof.
  apply (@single_row_class_copies_donor LCG.random_state LCGFacts.laws);
    [reflexivity|reflexivity|repeat constructor].
Defined.

(** ** The batch generator *)

Lemma firstn_add_split {A} (n m : nat) (l : list A) :
  firstn (n + m) l = firstn n l ++ firstn m (skipn n l).
Proof.
  revert l; induction n as [|n IH]; intros l; [reflexivity|].
  destruct l as [|x l]; simpl; [now rewrite firstn_nil|]. now rewrite IH.
Qed.

Lemma concat_windows {A} (l : list A) (b k : nat) :
  concat (map (fun i => firstn b (skipn (i * b) l)) (seq 0 k)) = firstn (k * b) l.
Proof.
  induction k as [|k IH]; [reflexivity|].
  rewrite seq_S, map_app, concat_app, IH. cbn [map concat plus].
  rewrite app_nil_r. replace (S k * b)%nat with (k * b + b)%nat by lia.
  now rewrite firstn_add_split.
Qed.

Lemma py_slice_inside {A} (l : list A) (lo hi : Z) :
  (0 <= lo <= hi)%Z -> (hi <= Z.of_nat (length l))%Z ->
  Keras.py_slice l lo hi = firstn (Z.to_nat (hi - lo)) (skipn (Z.to_nat lo) l).
Proof.
  intros H1 H2. unfold Keras.py_slice, Keras.slice_bound.
  destruct (Z.ltb_spec lo 0), (Z.ltb_spec hi 0); try lia.
  now rewrite !Z.min_l by lia.
Qed.

Section KerasFacts.

Context {rs : RandomState}.

Lemma window_valid (o : Keras.BalancedBatchGenerator) (index : Z) :
  (0 < Keras.batch_size o)%Z ->
  (0 <= index < Z.of_nat (length (Keras.indices_ o)) / Keras.batch_size o)%Z ->
  Keras.window o index =
  firstn (Z.to_nat (Keras.batch_size o))
         (skipn (Z.to_nat index * Z.to_nat (Keras.batch_size o)) (Keras.indices_ o)) /\
  length (Keras.window o index) = Z.to_nat (Keras.batch_size o).
Proof.
  intros Hb Hi. set (b := Keras.batch_size o) in *.
  set (n := Z.of_nat (length (Keras.indices_ o))) in *.
  assert (Hn : (b * (n / b) <= n)%Z) by (apply Z.mul_div_le; lia).
  assert (Hhi : ((index + 1) * b <= n)%Z) by nia.
  unfold Keras.window. fold b. rewrite py_slice_inside by (fold n; nia).
  replace (Z.to_nat ((index + 1) * b - index * b)) with (Z.to_nat b) by (f_equal; lia).
  replace (Z.to_nat (index * b)) with (Z.to_nat index * Z.to_nat b)%nat
    by (rewrite <- Z2Nat.inj_mul; lia).
  split; [reflexivity|].
  rewrite length_firstn, length_skipn. fold n in Hhi.
  assert (Z.of_nat (Z.to_nat index * Z.to_nat b) = index * b)%Z
    by (rewrite Nat2Z.inj_mul, !Z2Nat.id; lia).
  unfold n in *. lia.
Qed.

Lemma getitem_rows (index : Z) (w w' : Keras.BBG) batch :
  Keras.__getitem__ index w = (inr batch, w') ->
  _safe_indexing (Keras.items (Keras.X (self w))) (Keras.window (self w) index)
    = inr (Keras.items (fst (fst batch))) /\
  _safe_indexing (Keras.items (Keras.y (self w))) (Keras.window (self w) index)
    = inr (Keras.items (snd (fst batch))).
Proof.
  unfold Keras.__getitem__. intros H.
  apply bind_inv in H as (o & w1 & H1 & H). apply gets_inv in H1 as [-> ->].
  apply bind_inv in H as (Xr & w1 & H1 & H). apply lift_exn_inv in H1 as [HX ->].
  apply bind_inv in H as (yr & w1 & H1 & H). apply lift_exn_inv in H1 as [Hy ->].
  unfold Keras.safe_indexing in HX, Hy.
  destruct (_safe_indexing (Keras.items (Keras.X (self w))) _) as [|Xl]; [discriminate|].
  destruct (_safe_indexing (Keras.items (Keras.y (self w))) _) as [|yl]; [discriminate|].
  inversion HX; subst Xr. inversion Hy; subst yr.
  assert (E : fst (fst batch) = Keras.densify (Keras.sparse (self w))
                                  (Keras.mkArray (Keras.issparse (Keras.X (self w))) Xl) /\
              snd (fst batch) = Keras.densify (Keras.sparse (self w))
                                  (Keras.mkArray (Keras.issparse (Keras.y (self w))) yl)).
  { destruct (Keras.sample_weight (self w)) as [sw|].
    - apply bind_inv in H as (swr & w1 & _ & H).
      apply bind_inv in H as (u & w2 & _ & H).
      apply ret_inv in H as [-> _]. auto.
    - apply ret_inv in H as [-> _]. auto. }
  destruct E as [-> ->]. unfold Keras.densify.
  split; [destruct (_ && _)|destruct (Keras.issparse _ && _)]; reflexivity.
Qed.

(** C7 -- for a generator over [n] resampled rows with a positive batch size
    [b], [__len__] returns [floor (n / b)] and changes nothing; each batch of a
    valid index is a window of exactly [b] positions of the shuffled order; the
    windows of all batches, in order, are the first [b * floor (n / b)]
    positions, so later positions belong to no batch; a returned batch holds
    the rows of [X] and [y] at its window; 95 rows in batches of 10 give
    length 9. *)
Theorem len_is_floor_and_tail_dropped (w : Keras.BBG) :
  let o := self w in
  let n := Z.of_nat (length (Keras.indices_ o)) in
  let b := Keras.batch_size o in
  (0 < b)%Z ->
  Keras.__len__ w = (inr (n / b)%Z, w) /\
  (forall index, (0 <= index < n / b)%Z ->
                 length (Keras.window o index) = Z.to_nat b) /\
  concat (map (fun i => Keras.window o (Z.of_nat i)) (seq 0 (Z.to_nat (n / b)))) =
    firstn (Z.to_nat (b * (n / b))) (Keras.indices_ o) /\
  (forall index batch w',
      Keras.__getitem__ index w = (inr batch, w') ->
      _safe_indexing (Keras.items (Keras.X o)) (Keras.window o index)
        = inr (Keras.items (fst (fst batch))) /\
      _safe_indexing (Keras.items (Keras.y o)) (Keras.window o index)
        = inr (Keras.items (snd (fst batch)))) /\
  (n = 95%Z -> b = 10%Z -> Keras.__len__ w = (inr 9%Z, w)).
Proof.
  intros o n b Hb.
  assert (Hlen : Keras.__len__ w = (inr (n / b)%Z, w)).
  { unfold Keras.__len__, bind, gets, ret. fold o b n.
    destruct (Z.eqb_spec b 0); [lia|reflexivity]. }
  split; [exact Hlen|]. split; [|split; [|split]].
  - intros index Hi. now apply window_valid.
  - assert (Hq : (0 <= n / b)%Z) by (apply Z.div_pos; lia).
    rewrite (map_ext_in _ (fun i => firstn (Z.to_nat b)
                                      (skipn (i * Z.to_nat b) (Keras.indices_ o)))).
    + rewrite concat_windows. f_equal. rewrite <- Z2Nat.inj_mul by lia. f_equal. lia.
    + intros i Hin. apply in_seq in Hin.
      destruct (@window_valid o (Z.of_nat i) Hb) as [E _]; [fold n b; lia|].
      now rewrite E, Nat2Z.id.
  - intros index batch w' H. eapply getitem_rows; eauto.
  - intros E1 E2. rewrite Hlen, E1, E2. reflexivity.
Qed.

Lemma bind_pure {S A B} (m : M S A) (k : A -> M S B) :
  (forall s, snd (m s) = s) -> (forall a s, snd (k a s) = s) ->
  forall s, snd (bind m k s) = s.
Proof.
  intros Hm Hk s. unfold bind. specialize (Hm s).
  destruct (m s) as [[e|a] s']; cbn [snd] in *; subst; [reflexivity|apply Hk].
Qed.

Lemma getitem_pure (index : Z) (w : Keras.BBG) :
  snd (Keras.__getitem__ index w) = w.
Proof.
  revert w. unfold Keras.__getitem__.
  apply bind_pure; [reflexivity|]. intros o.
  apply bind_pure; [reflexivity|]. intros Xr.
  apply bind_pure; [reflexivity|]. intros yr.
  destruct (Keras.sample_weight o) as [sw|]; [|reflexivity].
  apply bind_pure; [reflexivity|]. intros swr.
  apply bind_pure; [|reflexivity].
  intros s. destruct (_ && _); reflexivity.
Qed.

End KerasFacts.

Lemma len_is_floor_and_tail_dropped_witness :
  Keras.__len__ Example.gen95 = (inr 9%Z, Example.gen95).
Proof.
  destruct (@len_is_floor_and_tail_dropped LCG.random_state Example.gen95 eq_refl)
    as (_ & _ & _ & _ & H).
  apply H; reflexivity.
Defined.

Section KerasConstruction.

Context {rs : RandomState}.

Lemma write_write_rs r g g' h : write_rs r g' (write_rs r g h) = write_rs r g' h.
Proof. now destruct r. Qed.

Lemma init_shuffles_once (RUS : Keras.Sampler) Xa ya sw smp bs sp arg
    (w0 w' : Keras.BBG) :
  Keras.__init__ RUS Xa ya sw smp bs sp arg w0 = (inr tt, w') ->
  let s := match smp with None => RUS | Some s0 => s0 end in
  let res := Keras.fit_sample s (read_rs (ref_of arg) (heap (seeded arg w0))) Xa ya in
  exists indices,
    fst res = inr indices /\
    w' = mkWorld
           (write_rs (ref_of arg) (snd (rs_shuffle (snd res) indices))
                     (heap (seeded arg w0)))
           (Keras.mkBBG Xa ya sw smp bs sp arg (Some s)
                        (fst (rs_shuffle (snd res) indices))).
Proof.
  unfold Keras.__init__. intros H.
  apply bind_inv in H as (u & w1 & H1 & H).
  unfold update_self, modify in H1. inversion H1; subst u w1; clear H1.
  unfold Keras._sample in H.
  apply bind_inv in H as (o & w1 & H1 & H). apply gets_inv in H1 as [-> ->].
  cbn [self Keras.random_state Keras.sampler Keras.X Keras.y] in H.
  apply bind_inv in H as (r & w1 & H1 & H). rewrite check_random_state_eq in H1.
  inversion H1; subst r w1; clear H1.
  apply bind_inv in H as (s & w1 & H1 & H).
  assert (Hw1 : w1 = seeded arg (mkWorld (heap w0)
                        (Keras.mkBBG Xa ya sw smp bs sp arg None [])) /\
                s = match smp with None => RUS | Some s0 => s0 end).
  { destruct smp as [s0|]; [destruct (Keras.has_return_indices s0)|];
      inversion H1; auto. }
  destruct Hw1 as [-> ->]. clear H1.
  apply bind_inv in H as (u & w1 & H1 & H).
  unfold update_self, modify in H1. inversion H1; subst u w1; clear H1.
  apply bind_inv in H as (res & w1 & H1 & H). rewrite draw_eq in H1.
  inversion H1; subst res w1; clear H1.
  apply bind_inv in H as (indices & w1 & H1 & H). apply lift_exn_inv in H1 as [Hfit ->].
  apply bind_inv in H as (u & w1 & H1 & H).
  unfold update_self, modify in H1. inversion H1; subst u w1; clear H1.
  apply bind_inv in H as (shuffled & w1 & H1 & H). rewrite draw_eq in H1.
  inversion H1; subst shuffled w1; clear H1.
  unfold update_self, modify in H. inversion H; subst w'; clear H.
  cbn [heap self Keras.indices_ Keras.set_indices_ Keras.set_sampler_] in *.
  rewrite !read_write_rs, !write_write_rs.
  assert (Hh : heap (seeded arg (mkWorld (heap w0)
                       (Keras.mkBBG Xa ya sw smp bs sp arg None [])))
               = heap (seeded arg w0))
    by (destruct arg; reflexivity).
  assert (Hs : self (seeded arg (mkWorld (heap w0)
                       (Keras.mkBBG Xa ya sw smp bs sp arg None [])))
               = Keras.mkBBG Xa ya sw smp bs sp arg None [])
    by (destruct arg; reflexivity).
  rewrite Hh, Hs in *. cbv zeta. exists indices. split; [exact Hfit|reflexivity].
Qed.

(** C8 -- requesting a batch changes neither the generator object nor any
    random source, so a second request for the same index has the same
    outcome; a constructor that returns leaves exactly this state: the
    sampler is the default one or the one given, it is run once on the
    generator that [random_state] names (freshly seeded for an integer), and
    [indices_] is the result of one [shuffle] of its indices drawn from that
    generator right after, whose state after that single shuffle is the
    final one; when the window's indices are in range and no weights were
    given the request returns the rows of [X] and [y] at the window. *)
Theorem getitem_idempotent (w : Keras.BBG) (index : Z) :
  snd (Keras.__getitem__ index w) = w /\
  Keras.__getitem__ index (snd (Keras.__getitem__ index w))
    = Keras.__getitem__ index w /\
  (forall RUS Xa ya sw smp bs sp arg (w0 w' : Keras.BBG),
      Keras.__init__ RUS Xa ya sw smp bs sp arg w0 = (inr tt, w') ->
      let s := match smp with None => RUS | Some s0 => s0 end in
      let res :=
        Keras.fit_sample s (read_rs (ref_of arg) (heap (seeded arg w0))) Xa ya in
      exists indices,
        fst res = inr indices /\
        w' = mkWorld
               (write_rs (ref_of arg) (snd (rs_shuffle (snd res) indices))
                         (heap (seeded arg w0)))
               (Keras.mkBBG Xa ya sw smp bs sp arg (Some s)
                            (fst (rs_shuffle (snd res) indices)))) /\
  (Forall (fun i => (i < length (Keras.items (Keras.X (self w))))%nat)
          (Keras.window (self w) index) ->
   Forall (fun i => (i < length (Keras.items (Keras.y (self w))))%nat)
          (Keras.window (self w) index) ->
   Keras.sample_weight (self w) = None ->
   exists Xb yb,
     Keras.__getitem__ index w = (inr (Xb, yb, None), w) /\
     _safe_indexing (Keras.items (Keras.X (self w))) (Keras.window (self w) index)
       = inr (Keras.items Xb) /\
     _safe_indexing (Keras.items (Keras.y (self w))) (Keras.window (self w) index)
       = inr (Keras.items yb)).
Proof.
  split; [apply getitem_pure|]. split; [now rewrite getitem_pure|].
  split; [intros RUS Xa ya sw smp bs sp arg w0 w' H;
          exact (init_shuffles_once _ _ _ _ _ _ _ _ _ H)|].
  intros HX Hy Hsw.
  destruct (safe_indexing_ok _ HX) as [Xl EX].
  destruct (safe_indexing_ok _ Hy) as [yl Ey].
  unfold Keras.__getitem__, bind, gets, lift_exn, ret, Keras.safe_indexing.
  rewrite EX, Ey, Hsw.
  do 2 eexists. split; [reflexivity|].
  unfold Keras.densify. split.
  - destruct (_ && _); reflexivity.
  - destruct (Keras.issparse _ && _); reflexivity.
Qed.

End KerasConstruction.

Lemma getitem_idempotent_witness :
  snd (Keras.__getitem__ 1%Z Example.gen4) = Example.gen4 /\
  Keras.__getitem__ 1%Z (snd (Keras.__getitem__ 1%Z Example.gen4))
    = Keras.__getitem__ 1%Z Example.gen4 /\
  (let w' := snd (Keras.__init__ Example.every_row
                    (Keras.X (self Example.gen4)) (Keras.y (self Example.gen4))
                    None None 2 false (RS_int 42) Example.gen95) in
   Keras.indices_ (self w') = fst (LCG.shuffle 42 [0; 1; 2; 3]%nat) /\
   local_rs (heap w') = snd (LCG.shuffle 42 [0; 1; 2; 3]%nat) /\
   Keras.sampler_ (self w') = Some Example.every_row) /\
  exists Xb yb,
    Keras.__getitem__ 1%Z Example.gen4 = (inr (Xb, yb, None), Example.gen4) /\
    Keras.items Xb = [[1%R]; [2%R]] /\
    Keras.items yb = [[0%R]; [0%R]].
Proof.
  destruct (@getitem_idempotent LCG.random_state Example.gen4 1%Z)
    as (H1 & H2 & H3 & H4).
  split; [exact H1|]. split; [exact H2|]. split.
  - intros w'.
    destruct (H3 Example.every_row
                (Keras.X (self Example.gen4)) (Keras.y (self Example.gen4))
                None None 2%Z false (RS_int 42) Example.gen95 w' eq_refl)
      as (indices & Hfit & Hw).
    inversion Hfit; subst indices. rewrite Hw. repeat split.
  - destruct H4 as (Xb & yb & E & EX & Ey).
    + repeat constructor.
    + repeat constructor.
    + reflexivity.
    + exists Xb, yb. split; [exact E|].
      split; [inversion EX; reflexivity|inversion Ey; reflexivity].
Defined.

(** ** Boundary behaviour of the batch generator *)

(** An index equal to the length is outside the valid range: its window is
    the five trailing positions. *)
Example window_past_the_last_batch :
  Keras.window (self Example.gen95) 9 = [90; 91; 92; 93; 94]%nat.
Proof. reflexivity. Qed.

(** A batch size of zero makes [__len__] raise. *)
Example len_zero_batch_size :
  fst (Keras.__len__ Example.gen95_zero_batch) = inl ZeroDivisionError.
Proof. reflexivity. Qed.

(** Sparse sample weights with [sparse = False] reach line 144, which reads
    an unassigned local; the request raises, each time it is made. *)
Example getitem_sparse_weights :
  fst (Keras.__getitem__ 0 Example.gen4_sparse_weights) = inl UnboundLocalError.
Proof. reflexivity. Qed.

(** * Further properties of the over-sampler *)

(** ** Indexing by a list of positions *)

Lemma safe_indexing_seq_from {A} (pre a : list A) :
  _safe_indexing (pre ++ a) (seq (length pre) (length a)) = inr a.
Proof.
  revert pre; induction a as [|x a IH]; intros pre; [reflexivity|].
  cbn [length seq _safe_indexing].
  rewrite nth_error_app2, Nat.sub_diag by lia. cbn [nth_error].
  specialize (IH (pre ++ [x])). rewrite <- app_assoc, length_app in IH.
  cbn [app length] in IH. rewrite Nat.add_1_r in IH. now rewrite IH.
Qed.

Lemma safe_indexing_seq {A} (a : list A) :
  _safe_indexing a (seq 0 (length a)) = inr a.
Proof. exact (safe_indexing_seq_from [] a). Qed.

Lemma safe_indexing_app {A} (a : list A) i1 i2 l1 l2 :
  _safe_indexing a i1 = inr l1 -> _safe_indexing a i2 = inr l2 ->
  _safe_indexing a (i1 ++ i2) = inr (l1 ++ l2).
Proof.
  revert l1; induction i1 as [|i i1 IH]; intros l1; simpl.
  - intros H; inversion H; auto.
  - destruct (nth_error a i); [|discriminate].
    destruct (_safe_indexing a i1) as [|l]; [discriminate|].
    intros H H2; inversion H; subst. now rewrite (IH l eq_refl H2).
Qed.

Lemma safe_indexing_of_Forall2 {A} (a : list A) idx l :
  Forall2 (fun i x => nth_error a i = Some x) idx l ->
  _safe_indexing a idx = inr l.
Proof.
  induction 1 as [|i x idx l Hx _ IH]; simpl; [reflexivity|]. now rewrite Hx, IH.
Qed.

Lemma safe_indexing_concat {A} (a : list A) (blocks : list block)
    (proj : block -> list A) :
  Forall (fun b => _safe_indexing a (block_indices b) = inr (proj b)) blocks ->
  _safe_indexing a (concat (map block_indices blocks)) = inr (concat (map proj blocks)).
Proof.
  induction 1 as [|b blocks Hb _ IH]; [reflexivity|].
  cbn [map concat]. now apply safe_indexing_app.
Qed.

Lemma safe_indexing_labels (y : list Z) (c : Z) idx :
  Forall (fun i => nth_error y i = Some c) idx ->
  _safe_indexing y idx = inr (repeat c (length idx)).
Proof.
  induction 1 as [|i idx Hi _ IH]; simpl; [reflexivity|]. now rewrite Hi, IH.
Qed.

Lemma Forall2_right {A B} (P : A -> B -> Prop) (Q : B -> Prop) l l' :
  (forall a b, P a b -> Q b) -> Forall2 P l l' -> Forall Q l'.
Proof. intros H. induction 1; constructor; eauto. Qed.

Section Provenance.

Context {rs : RandomState} {laws : RandomStateLaws rs}.

(** X1 -- on valid inputs [sample_indices_] indexes the output: the returned
    labels are [y] at [sample_indices_], and without the smoothed bootstrap the
    returned features are [X] at [sample_indices_]. *)
Theorem sample_indices_index_the_output (X : matrix) (y : list Z) (w : ROS) :
  valid_input (self w) X y = true ->
  exists X' y' w' si,
    _fit_resample X y w = (inr (X', y'), w') /\
    sample_indices_ (self w') = Some si /\
    _safe_indexing y si = inr y' /\
    (smoothed_bootstrap (self w) = false ->
     _safe_indexing (rows X) si = inr (rows X')).
Proof.
  intros Hv.
  destruct (fit_resample_ok _ _ _ Hv) as (X' & y' & w' & Hrun).
  destruct (fit_resample_inv _ _ _ Hrun) as (blocks & HF & -> & -> & Hsi & Hsb).
  destruct (valid_input_In _ _ _ Hv) as [Hlen _].
  do 4 eexists. split; [exact Hrun|]. split; [exact Hsi|]. split.
  - apply safe_indexing_app.
    + rewrite Hlen. apply safe_indexing_seq.
    + apply safe_indexing_concat. eapply Forall2_right; [|exact HF].
      intros ck b (Hl & Hi & Hy & _). rewrite Hy, <- Hl.
      now apply safe_indexing_labels.
  - intros Hplain. cbn [rows]. apply safe_indexing_app.
    + apply safe_indexing_seq.
    + apply safe_indexing_concat. eapply Forall2_right; [|exact HF].
      intros ck b (_ & _ & _ & _ & Hb). rewrite Hsb, Hplain in Hb. exact Hb.
Qed.

Lemma count_occ_blocks (c : Z) (strategy : list (Z * nat)) :
  count_occ Z.eq_dec (concat (map (fun ck => repeat (fst ck) (snd ck)) strategy)) c
  = added_for c strategy.
Proof.
  unfold added_for. induction strategy as [|[c' k] l IH]; [reflexivity|].
  cbn [map concat filter fst snd]. rewrite count_occ_app, IH.
  destruct (Z.eqb_spec c' c) as [->|Hne].
  - rewrite count_occ_repeat_eq by reflexivity. reflexivity.
  - rewrite count_occ_repeat_neq by congruence. reflexivity.
Qed.

(** X2 -- on valid inputs the output has the input's rows plus the strategy's
    total, and every class [c] has its input count plus the samples the
    strategy asks for [c]; classes not in the strategy keep their count. *)
Theorem class_counts_after_resampling (X : matrix) (y : list Z) (w : ROS) :
  valid_input (self w) X y = true ->
  exists X' y' w',
    _fit_resample X y w = (inr (X', y'), w') /\
    length (rows X') =
      (length (rows X) + list_sum (map snd (sampling_strategy_ (self w))))%nat /\
    (forall c, count_occ Z.eq_dec y' c =
               (count_occ Z.eq_dec y c + added_for c (sampling_strategy_ (self w)))%nat) /\
    (forall c, ~ In c (keys (sampling_strategy_ (self w))) ->
               count_occ Z.eq_dec y' c = count_occ Z.eq_dec y c).
Proof.
  intros Hv.
  destruct (fit_resample_ok _ _ _ Hv) as (X' & y' & w' & Hrun).
  destruct (fit_resample_inv _ _ _ Hrun) as (blocks & HF & -> & -> & _).
  destruct (blocks_shape HF) as (L1 & L2 & _).
  do 3 eexists. split; [exact Hrun|]. cbn [rows]. split; [|split].
  - now rewrite length_app, L1.
  - intros c. now rewrite count_occ_app, L2, count_occ_blocks.
  - intros c Hc. rewrite count_occ_app, L2, count_occ_blocks.
    replace (added_for c (sampling_strategy_ (self w))) with 0%nat; [lia|].
    unfold added_for. clear - Hc.
    induction (sampling_strategy_ (self w)) as [|[c' k] l IH]; [reflexivity|].
    cbn [filter fst]. destruct (Z.eqb_spec c' c) as [->|Hne].
    + exfalso. apply Hc. now left.
    + apply IH. intros H. apply Hc. now right.
Qed.

(** Rows of the output are rectangular. *)
Lemma smoothed_rows_width (f : nat) noise Mx X_boot :
  Forall (fun r : list R => length r = f) X_boot ->
  Forall (fun r : list R => length r = f) (mat_add (dot f noise Mx) X_boot).
Proof.
  intros HX. unfold mat_add, dot. apply Forall_forall. intros r Hr.
  apply in_map_iff in Hr as ([a b] & <- & Hin). cbn [fst snd].
  pose proof (in_combine_l _ _ _ _ Hin) as Ha.
  pose proof (in_combine_r _ _ _ _ Hin) as Hb.
  apply in_map_iff in Ha as (z & <- & _).
  rewrite Forall_forall in HX. specialize (HX b Hb).
  unfold vec_add. rewrite length_map, length_combine, length_map, length_seq. lia.
Qed.

Lemma safe_indexing_In {A} (a : list A) idx l x :
  _safe_indexing a idx = inr l -> In x l -> In x a.
Proof.
  intros H. apply safe_indexing_inv in H.
  induction H as [|i z idx l Hz _ IH]; [contradiction|].
  intros [<-|Hin]; [eapply nth_error_In; eauto|auto].
Qed.

(** X3 -- on valid, rectangular inputs the output keeps the storage format
    and the column count of the input and is rectangular again, with or
    without the smoothed bootstrap. *)
Theorem output_keeps_format_and_width (X : matrix) (y : list Z) (w : ROS) :
  valid_input (self w) X y = true ->
  well_formed X ->
  exists X' y' w',
    _fit_resample X y w = (inr (X', y'), w') /\
    format X' = format X /\ n_cols X' = n_cols X /\ well_formed X'.
Proof.
  intros Hv Hwf.
  destruct (fit_resample_ok _ _ _ Hv) as (X' & y' & w' & Hrun).
  destruct (fit_resample_inv _ _ _ Hrun) as (blocks & HF & -> & -> & _).
  do 3 eexists. split; [exact Hrun|]. split; [reflexivity|]. split; [reflexivity|].
  unfold well_formed in *. cbn [rows n_cols]. apply Forall_app. split; [exact Hwf|].
  rewrite Forall_forall in Hwf.
  apply Forall_concat. apply Forall_map. eapply Forall2_right; [|exact HF].
  intros ck b (_ & _ & _ & _ & Hb). cbn beta.
  destruct (smoothed_bootstrap (self w')).
  - destruct Hb as (sh & C & Xc & noise & Xb & _ & _ & _ & HXb & _ & _ & ->).
    apply smoothed_rows_width. apply Forall_forall. intros r Hr.
    apply Hwf. eapply safe_indexing_In; eauto.
  - apply Forall_forall. intros r Hr. apply Hwf. eapply safe_indexing_In; eauto.
Qed.

End Provenance.

(** ** Classes without rows, and strategies without classes *)

Section AbsentClass.

Context {rs : RandomState} {laws : RandomStateLaws rs}.

Lemma resample_class_plain_raises r X y c k (w w' : ROS) e :
  smoothed_bootstrap (self w) = false ->
  length (rows X) = length y ->
  resample_class r X y c k w = (inl e, w') ->
  e = ValueError_empty_population /\ self w' = self w.
Proof.
  intros Hsb Hlen. unfold resample_class. unfold bind at 1.
  destruct (choice r (flatnonzero_eq y c) k w) as [[e0|boot] w1] eqn:Hc.
  - apply choice_error in Hc as [-> ->]. intros H; inversion H; auto.
  - apply choice_inv in Hc as (_ & Hin & Hself).
    assert (Hlt : Forall (fun i => (i < length y)%nat) boot).
    { apply Forall_forall. intros i Hi. eapply flatnonzero_lt; eauto. }
    destruct (safe_indexing_ok y Hlt) as [yn Hyn].
    rewrite <- Hlen in Hlt. destruct (safe_indexing_ok (rows X) Hlt) as [Xb HXb].
    unfold bind at 1, gets at 1. rewrite Hself, Hsb, HXb, Hyn.
    unfold bind, lift_exn, ret. discriminate.
Qed.

Lemma resample_loop_plain_raises r X y items :
  forall acc (w w' : ROS) e,
    smoothed_bootstrap (self w) = false ->
    length (rows X) = length y ->
    resample_loop r X y items acc w = (inl e, w') ->
    e = ValueError_empty_population /\ self w' = self w.
Proof.
  induction items as [|[c k] items IH]; intros acc w w' e Hsb Hlen; cbn [resample_loop].
  - discriminate.
  - unfold bind at 1.
    destruct (resample_class r X y c k w) as [[e0|[[boot Xn] yn]] w1] eqn:Hc.
    + intros H; inversion H; subst. eapply resample_class_plain_raises; eauto.
    + apply resample_class_inv in Hc as [_ Hself]. destruct acc as [[Xs ys] si].
      intros H. apply IH in H; [|now rewrite Hself|assumption].
      rewrite <- Hself. exact H.
Qed.

Lemma blocks_need_rows o X y items (blocks : list block) :
  Forall2 (block_spec o X y) items blocks ->
  Forall (fun ck : Z * nat => snd ck = 0%nat \/ In (fst ck) y) items.
Proof.
  induction 1 as [|ck b items blocks Hb _ IH]; constructor; [|exact IH].
  destruct Hb as (Hl & Hi & _). destruct (block_indices b) as [|i idx].
  - left. now rewrite <- Hl.
  - right. inversion Hi; subst. eapply nth_error_In; eauto.
Qed.

(** X4 -- without the smoothed bootstrap and with row-aligned inputs, a
    strategy asking for samples of a class that has no row makes
    [_fit_resample] raise the [ValueError] of [choice]; the sampler's
    attributes, [sample_indices_] included, keep their values. *)
Theorem absent_class_raises (X : matrix) (y : list Z) (w : ROS) :
  smoothed_bootstrap (self w) = false ->
  length (rows X) = length y ->
  Exists (fun ck : Z * nat => snd ck <> 0%nat /\ ~ In (fst ck) y)
         (sampling_strategy_ (self w)) ->
  exists w',
    _fit_resample X y w = (inl ValueError_empty_population, w') /\
    self w' = self w.
Proof.
  intros Hsb Hlen Hex.
  rewrite fit_resample_unfold, resolve_shrinkage_unfold, seeded_self, Hsb. cbv zeta.
  set (v := seeded (random_state (self w)) w).
  assert (Hv : self v = self w) by apply seeded_self.
  destruct (resample_loop (ref_of (random_state (self w))) X y
              (sampling_strategy_ (self v)) ([X], [y], seq 0 (length (rows X))) v)
    as [[e|[[Xs ys] si]] v'] eqn:Hloop.
  - apply resample_loop_plain_raises in Hloop as [-> Hs]; [|now rewrite Hv|assumption].
    eexists. split; [reflexivity|]. now rewrite Hs.
  - exfalso. apply resample_loop_inv in Hloop as (blocks & HF & _).
    apply blocks_need_rows in HF. rewrite Hv in HF.
    rewrite Exists_exists in Hex. destruct Hex as (ck & Hin & Hk & Hc).
    rewrite Forall_forall in HF. destruct (HF ck Hin); auto.
Qed.

End AbsentClass.

Lemma absent_class_raises_witness :
  exists w',
    _fit_resample Example.X0 Example.y0
      (mkWorld Example.heap0
         (mkROS (Strategy_dict [(5%Z, 2%nat)]) (RS_int 42) false (Shrinkage_real 1%R)
                [(5%Z, 2%nat)] None (Some [9%nat])))
      = (inl ValueError_empty_population, w') /\
    sample_indices_ (self w') = Some [9%nat].
Proof.
  destruct (@absent_class_raises LCG.random_state LCGFacts.laws
              Example.X0 Example.y0
              (mkWorld Example.heap0
                 (mkROS (Strategy_dict [(5%Z, 2%nat)]) (RS_int 42) false
                        (Shrinkage_real 1%R) [(5%Z, 2%nat)] None (Some [9%nat]))))
    as (w' & E & Hs).
  - reflexivity.
  - reflexivity.
  - constructor. split; [discriminate|].
    intros [H|[H|[H|[]]]]; discriminate.
  - exists w'. split; [exact E|]. now rewrite Hs.
Defined.

Section EmptyStrategy.

Context {rs : RandomState}.

(** X5 -- with an empty resolved strategy [_fit_resample] returns the input
    unchanged and stores [sample_indices_ = 0 .. n-1], whatever the smoothing
    flag and the shrinkage. *)
Theorem empty_strategy_returns_input (X : matrix) (y : list Z) (w : ROS) :
  sampling_strategy_ (self w) = [] ->
  fst (_fit_resample X y w) = inr (X, y) /\
  sample_indices_ (self (snd (_fit_resample X y w)))
    = Some (seq 0 (length (rows X))).
Proof.
  intros Hs.
  assert (HX : vstack (format X) (n_cols X) [X] = X)
    by (destruct X; unfold vstack; cbn; now rewrite app_nil_r).
  rewrite fit_resample_unfold, resolve_shrinkage_unfold, seeded_self, Hs. cbv zeta.
  destruct (smoothed_bootstrap (self w)); [destruct (shrinkage (self w))|];
    cbn; rewrite ?seeded_self, ?Hs; cbn; rewrite HX, ?app_nil_r; auto.
Qed.

End EmptyStrategy.

Lemma empty_strategy_returns_input_witness :
  fst (_fit_resample Example.X1 Example.y1 Example.w1) = inr (Example.X1, Example.y1) /\
  sample_indices_ (self (snd (_fit_resample Example.X1 Example.y1 Example.w1)))
    = Some (seq 0 (length (rows Example.X1))).
Proof.
  apply (@empty_strategy_returns_input LCG.random_state). reflexivity.
Defined.

(** ** Which generator a run advances *)

Section Frame.

Context {rs : RandomState}.

Lemma read_write_other r r' g h : r' <> r -> read_rs r' (write_rs r g h) = read_rs r' h.
Proof. destruct r, r'; intros H; try reflexivity; congruence. Qed.

Lemma frame_refl {O} r (w : World O) : frame r w w.
Proof. intros r' _. reflexivity. Qed.

Lemma frame_trans {O} r (w1 w2 w3 : World O) :
  frame r w1 w2 -> frame r w2 w3 -> frame r w1 w3.
Proof. intros H1 H2 r' Hr. now rewrite H2, H1. Qed.

Lemma frame_same_heap {O} r (w w' : World O) : heap w' = heap w -> frame r w w'.
Proof. intros E r' _. now rewrite E. Qed.

Lemma frame_bind {O A B} r (m : M (World O) A) (k : A -> M (World O) B) :
  (forall s, frame r s (snd (m s))) ->
  (forall a s, frame r s (snd (k a s))) ->
  forall s, frame r s (snd (bind m k s)).
Proof.
  intros Hm Hk s. unfold bind. specialize (Hm s).
  destruct (m s) as [[e|a] s']; cbn [snd] in *; [exact Hm|].
  eapply frame_trans; [exact Hm|apply Hk].
Qed.

Lemma frame_draw {O A} r (op : RS -> A * RS) (s : World O) :
  frame r s (snd (draw r op s)).
Proof.
  rewrite draw_eq. intros r' Hr. cbn. now apply read_write_other.
Qed.

Lemma frame_choice {O} r a k (s : World O) : frame r s (snd (choice r a k s)).
Proof.
  unfold choice. destruct a; [destruct k|]; try apply frame_draw; apply frame_refl.
Qed.

Lemma frame_resample_class r X y c k (s : ROS) :
  frame r s (snd (resample_class r X y c k s)).
Proof.
  revert s. unfold resample_class.
  apply frame_bind; [apply frame_choice|]. intros boot.
  apply frame_bind; [intros; apply frame_refl|]. intros [|].
  - cbn [shape].
    apply frame_bind; [intros; apply frame_refl|]. intros C.
    apply frame_bind; [intros; apply frame_refl|]. intros Xc.
    apply frame_bind.
    { intros s. unfold shrinkage_of, bind, gets.
      destruct (shrinkage_ (self s)) as [d|]; [destruct (dict_get d c)|];
        apply frame_refl. }
    intros sh. apply frame_bind; [apply frame_draw|]. intros noise.
    apply frame_bind; [intros; apply frame_refl|]. intros Xb.
    apply frame_bind; [intros; apply frame_refl|]. intros yn s. apply frame_refl.
  - apply frame_bind; [intros; apply frame_refl|]. intros Xb.
    apply frame_bind; [intros; apply frame_refl|]. intros yn s. apply frame_refl.
Qed.

Lemma frame_resample_loop r X y items :
  forall acc (s : ROS), frame r s (snd (resample_loop r X y items acc s)).
Proof.
  induction items as [|[c k] items IH]; intros acc; cbn [resample_loop].
  - intros s. apply frame_refl.
  - apply frame_bind; [apply frame_resample_class|].
    intros [[boot Xn] yn]. destruct acc as [[Xs ys] si]. apply IH.
Qed.

Lemma frame_fit_resample X y (w : ROS) :
  frame (ref_of (random_state (self w))) w (snd (_fit_resample X y w)).
Proof.
  rewrite fit_resample_unfold. cbv zeta.
  set (r := ref_of (random_state (self w))).
  set (v := seeded (random_state (self w)) w).
  assert (Hv : frame r w v).
  { unfold v, r. destruct (random_state (self w)); try apply frame_refl.
    intros r' Hr. unfold seeded. cbn [heap]. now apply read_write_other. }
  assert (Hres : frame r v (snd (resolve_shrinkage v))).
  { rewrite resolve_shrinkage_unfold.
    destruct (smoothed_bootstrap (self v)); [|apply frame_refl].
    destruct (shrinkage (self v)) as [x|d]; [apply frame_same_heap; reflexivity|].
    destruct (keys_difference _ d); [apply frame_same_heap; reflexivity|apply frame_refl]. }
  destruct (resolve_shrinkage v) as [[e|u] v1]; cbn [snd] in *.
  - eapply frame_trans; eauto.
  - assert (Hl : frame r v1
                   (snd (resample_loop r X y (sampling_strategy_ (self v1))
                           ([X], [y], seq 0 (length (rows X))) v1)))
      by apply frame_resample_loop.
    destruct (resample_loop r X y _ _ v1) as [[e|res] v2]; cbn [snd] in *.
    + eapply frame_trans; [|exact Hl]. eapply frame_trans; eauto.
    + eapply frame_trans; [|apply frame_same_heap; reflexivity].
      eapply frame_trans; [|exact Hl]. eapply frame_trans; eauto.
Qed.

(** X6 -- a run of [_fit_resample], whether it returns or raises, advances
    only the generator named by [random_state]: with an integer seed the
    global [np.random] and the caller's generator keep their states; with
    [None] the caller's generator does; with an instance [np.random] does. *)
Theorem only_the_named_generator_advances (X : matrix) (y : list Z) (w : ROS) :
  let h := heap w in
  let h' := heap (snd (_fit_resample X y w)) in
  match random_state (self w) with
  | RS_int _ => np_random h' = np_random h /\ caller_rs h' = caller_rs h
  | RS_None => caller_rs h' = caller_rs h /\ local_rs h' = local_rs h
  | RS_instance => np_random h' = np_random h /\ local_rs h' = local_rs h
  end.
Proof.
  intros h h'. pose proof (frame_fit_resample X y w) as F. unfold frame in F.
  destruct (random_state (self w)); cbn [ref_of] in F; split;
    first [ apply (F Ref_global) | apply (F Ref_caller) | apply (F Ref_local) ];
    discriminate.
Qed.

End Frame.

(** ** Shrinkage zero *)

Open Scope R_scope.






Close Scope R_scope.

Section NoShrinkage.

Context {rs : RandomState} {laws : RandomStateLaws rs}.


End NoShrinkage.

(** * Further properties of the older sampler *)

Lemma Forall2_nth_error_l {A B} (P : A -> B -> Prop) l l' i a :
  Forall2 P l l' -> nth_error l i = Some a ->
  exists b, nth_error l' i = Some b /\ P a b.
Proof.
  intros H; revert i; induction H as [|x y l l' Hxy _ IH]; intros [|i]; simpl;
    try discriminate.
  - intros E; inversion E; subst; eauto.
  - apply IH.
Qed.

Lemma safe_indexing_twice {A} (a : list A) flat ac idx :
  _safe_indexing a flat = inr ac ->
  Forall (fun i => (i < length flat)%nat) idx ->
  _safe_indexing ac idx = _safe_indexing a (map (fun i => nth i flat 0%nat) idx).
Proof.
  intros Hf. apply safe_indexing_inv in Hf.
  induction 1 as [|i idx Hi _ IH]; [reflexivity|].
  cbn [map _safe_indexing]. rewrite IH.
  destruct (nth_error flat i) as [j|] eqn:Ej; [|apply nth_error_None in Ej; lia].
  destruct (Forall2_nth_error_l _ Hf Ej) as (x & Hx & Hj).
  rewrite (nth_error_nth _ _ _ Ej), Hx, Hj. reflexivity.
Qed.

Section LegacyProperties.

Context {rs : RandomState} {laws : RandomStateLaws rs}.

Lemma randint_pos {O} r high size (w : World O) :
  (0 < high)%nat ->
  randint r high size w = draw r (fun g => rs_randint g high size) w.
Proof. destruct high; [lia|reflexivity]. Qed.

Lemma legacy_step r X y c k (w : World Legacy.RandomOverSampler) :
  length (rows X) = length y ->
  In c y ->
  exists idx Xn yn w1,
    (forall items acc,
        Legacy.sample_loop r X y ((c, k) :: items) acc w
        = Legacy.sample_loop r X y items (fst acc ++ Xn, snd acc ++ yn) w1) /\
    _safe_indexing (rows X) idx = inr Xn /\
    _safe_indexing y idx = inr yn /\
    yn = repeat c k /\
    self w1 = self w.
Proof.
  intros Hlen Hc.
  assert (Hpos : (0 < Legacy.count y c)%nat)
    by (unfold Legacy.count; now apply count_occ_In).
  set (flat := flatnonzero_eq y c).
  assert (Hfl : length flat = Legacy.count y c) by apply flatnonzero_from_length.
  set (g := read_rs r (heap w)).
  set (draws := fst (rs_randint g (Legacy.count y c) k)).
  assert (Hk : length draws = k) by (apply randint_length; assumption).
  assert (Hlt : Forall (fun i => (i < length flat)%nat) draws).
  { apply Forall_forall. intros i Hi. rewrite Hfl. eapply randint_lt; eauto. }
  assert (Hcl : Forall (fun i => (i < length y)%nat) flat).
  { apply Forall_forall. intros i Hi. eapply flatnonzero_lt; eauto. }
  destruct (safe_indexing_ok y Hcl) as [yc Hyc].
  rewrite <- Hlen in Hcl. destruct (safe_indexing_ok (rows X) Hcl) as [Xc HXc].
  set (idx := map (fun i => nth i flat 0%nat) draws).
  assert (Hidx : Forall (fun i => nth_error y i = Some c) idx).
  { apply Forall_forall. intros j Hj. apply in_map_iff in Hj as (i & <- & Hi).
    apply flatnonzero_In. apply nth_In. rewrite Forall_forall in Hlt. auto. }
  assert (Hiy : Forall (fun i => (i < length y)%nat) idx).
  { eapply Forall_impl; [|exact Hidx]. intros j Hj. apply nth_error_Some. congruence. }
  destruct (safe_indexing_ok y Hiy) as [yn Hyn].
  rewrite <- Hlen in Hiy. destruct (safe_indexing_ok (rows X) Hiy) as [Xn HXn].
  exists idx, Xn, yn,
    (mkWorld (write_rs r (snd (rs_randint g (Legacy.count y c) k)) (heap w)) (self w)).
  split; [|split; [exact HXn|split; [exact Hyn|split; [|reflexivity]]]].
  - intros items acc. cbn [Legacy.sample_loop].
    unfold bind at 1. rewrite (randint_pos r k w Hpos), draw_eq. fold g draws flat.
    rewrite HXc. unfold bind at 1, lift_exn at 1.
    rewrite (@safe_indexing_twice _ _ _ _ _ HXc Hlt). fold idx. rewrite HXn.
    unfold bind at 1, lift_exn at 1.
    rewrite Hyc. unfold bind at 1, lift_exn at 1.
    rewrite (@safe_indexing_twice _ _ _ _ _ Hyc Hlt). fold idx. rewrite Hyn.
    unfold bind at 1, lift_exn at 1. reflexivity.
  - rewrite (safe_indexing_const _ Hidx Hyn). unfold idx. now rewrite length_map, Hk.
Qed.

Lemma legacy_loop_indexing r X y items :
  forall acc (w : World Legacy.RandomOverSampler),
    length (rows X) = length y ->
    Forall (fun ck : Z * nat => In (fst ck) y) items ->
    exists idx XE w',
      Legacy.sample_loop r X y items acc w
      = (inr (fst acc ++ XE,
              snd acc ++ concat (map (fun ck => repeat (fst ck) (snd ck)) items)), w') /\
      _safe_indexing (rows X) idx = inr XE /\
      _safe_indexing y idx
      = inr (concat (map (fun ck => repeat (fst ck) (snd ck)) items)).
Proof.
  induction items as [|[c k] items IH]; intros acc w Hlen Hin.
  - exists [], [], w. cbn. rewrite !app_nil_r. destruct acc. auto.
  - inversion Hin as [|? ? Hc Hin']; subst. cbn [fst] in Hc.
    destruct (@legacy_step r X y c k w Hlen Hc) as (idx & Xn & yn & w1 & Hstep & HX & Hy & -> & _).
    destruct (IH (fst acc ++ Xn, snd acc ++ repeat c k) w1 Hlen Hin')
      as (idx' & XE & w' & E & HX' & Hy').
    exists (idx ++ idx'), (Xn ++ XE), w'. rewrite Hstep, E. cbn [fst snd map concat].
    rewrite <- !app_assoc. split; [reflexivity|].
    split; now apply safe_indexing_app.
Qed.

(** X8 -- on valid inputs the older [_sample] keeps features and labels
    row-aligned: there is one list of row indices, starting with [0 .. n-1],
    at which [X] gives the returned features and [y] the returned labels; the
    labels appended are [num_samples] copies of each class of [ratio_], so
    every class [c] ends with its count plus what [ratio_] asks for it. *)
Theorem legacy_sample_row_aligned (X : matrix) (y : list Z)
    (w : World Legacy.RandomOverSampler) :
  legacy_valid_input (self w) X y = true ->
  exists X' y' w' idx,
    Legacy._sample X y w = (inr (X', y'), w') /\
    _safe_indexing (rows X) (seq 0 (length (rows X)) ++ idx) = inr (rows X') /\
    _safe_indexing y (seq 0 (length (rows X)) ++ idx) = inr y' /\
    (forall c, count_occ Z.eq_dec y' c =
               (count_occ Z.eq_dec y c + added_for c (Legacy.ratio_ (self w)))%nat).
Proof.
  unfold legacy_valid_input. rewrite andb_true_iff. intros [Hlen Hc].
  apply Nat.eqb_eq in Hlen.
  assert (Hin : Forall (fun ck : Z * nat => In (fst ck) y) (Legacy.ratio_ (self w))).
  { rewrite forallb_forall in Hc. apply Forall_forall. intros ck H.
    apply mem_In, Hc. unfold keys. now apply in_map. }
  unfold Legacy._sample. unfold bind at 1, gets at 1.
  rewrite (bind_ok _ _ _ (check_random_state_eq _ w)).
  destruct (@legacy_loop_indexing (ref_of (Legacy.random_state (self w))) X y
              (Legacy.ratio_ (self w)) (rows X, y)
              (seeded (Legacy.random_state (self w)) w) Hlen Hin)
    as (idx & XE & w' & E & HX & Hy).
  rewrite (bind_ok _ _ _ E). cbn [fst snd].
  do 3 eexists. exists idx. split; [reflexivity|]. cbn [rows]. split; [|split].
  - apply safe_indexing_app; [apply safe_indexing_seq|exact HX].
  - apply safe_indexing_app; [rewrite Hlen; apply safe_indexing_seq|exact Hy].
  - intros c. now rewrite count_occ_app, count_occ_blocks.
Qed.




End LegacyProperties.

(** * When the plain over-sampler returns *)

Section PlainDomain.

Context {rs : RandomState} {laws : RandomStateLaws rs}.

Lemma resample_class_plain_ok r X y c k (w : ROS) :
  smoothed_bootstrap (self w) = false ->
  length (rows X) = length y ->
  k = 0%nat \/ In c y ->
  exists b w', resample_class r X y c k w = (inr b, w') /\ self w' = self w.
Proof.
  intros Hsb Hlen Hk. unfold resample_class. unfold bind at 1.
  destruct (choice r (flatnonzero_eq y c) k w) as [[e0|boot] w1] eqn:Hc.
  - exfalso. unfold choice in Hc.
    destruct (flatnonzero_eq y c) eqn:Ef; destruct k; rewrite ?draw_eq in Hc;
      try discriminate.
    destruct Hk as [Hk|Hk]; [discriminate|].
    now apply flatnonzero_nonempty in Hk.
  - apply choice_inv in Hc as (_ & Hin & Hself).
    assert (Hlt : Forall (fun i => (i < length y)%nat) boot).
    { apply Forall_forall. intros i Hi. eapply flatnonzero_lt; eauto. }
    destruct (safe_indexing_ok y Hlt) as [yn Hyn].
    rewrite <- Hlen in Hlt. destruct (safe_indexing_ok (rows X) Hlt) as [Xb HXb].
    unfold bind at 1, gets at 1. rewrite Hself, Hsb, HXb, Hyn.
    unfold bind, lift_exn, ret. eauto.
Qed.

Lemma resample_loop_plain_ok r X y items :
  forall acc (w : ROS),
    smoothed_bootstrap (self w) = false ->
    length (rows X) = length y ->
    Forall (fun ck : Z * nat => snd ck = 0%nat \/ In (fst ck) y) items ->
    exists res w', resample_loop r X y items acc w = (inr res, w').
Proof.
  induction items as [|[c k] items IH]; intros acc w Hsb Hlen Hall.
  - cbn. unfold ret. eauto.
  - inversion Hall as [|? ? Hk Hall']; subst. cbn [fst snd] in Hk.
    destruct (@resample_class_plain_ok r X y c k w Hsb Hlen Hk)
      as ([[boot Xn] yn] & w1 & H1 & Hs).
    cbn [resample_loop]. rewrite (bind_ok _ _ _ H1). destruct acc as [[Xs ys] si].
    apply IH; auto. now rewrite Hs.
Qed.

(** X10 -- without the smoothed bootstrap and with row-aligned inputs,
    [_fit_resample] returns exactly when every class the strategy asks
    samples for has at least one row; a class without rows is tolerated when
    zero samples are asked for it. *)
Theorem plain_run_returns_iff (X : matrix) (y : list Z) (w : ROS) :
  smoothed_bootstrap (self w) = false ->
  length (rows X) = length y ->
  (exists out w', _fit_resample X y w = (inr out, w')) <->
  Forall (fun ck : Z * nat => snd ck = 0%nat \/ In (fst ck) y)
         (sampling_strategy_ (self w)).
Proof.
  intros Hsb Hlen. split.
  - intros ([X' y'] & w' & Hrun).
    destruct (fit_resample_inv _ _ _ Hrun) as (blocks & HF & _).
    eapply blocks_need_rows; eauto.
  - intros Hall.
    rewrite fit_resample_unfold, resolve_shrinkage_unfold, seeded_self, Hsb. cbv zeta.
    set (v := seeded (random_state (self w)) w).
    assert (Hv : self v = self w) by apply seeded_self.
    destruct (@resample_loop_plain_ok (ref_of (random_state (self w))) X y
                (sampling_strategy_ (self v)) ([X], [y], seq 0 (length (rows X))) v)
      as (res & v' & Hl); rewrite ?Hv; auto.
    rewrite Hv in Hl. rewrite Hl. eauto.
Qed.

End PlainDomain.

(** * Further properties of the batch generator *)

Lemma firstn_firstn_skipn_all {A} (l : list A) (lo b m : nat) :
  (m = Nat.min b (length l - lo))%nat ->
  firstn m (skipn lo l) = firstn b (skipn lo l).
Proof.
  intros ->. destruct (Nat.le_ge_cases b (length l - lo)).
  - now rewrite Nat.min_l.
  - rewrite Nat.min_r by assumption.
    rewrite !firstn_all2; rewrite ?length_skipn; auto.
Qed.

Lemma In_firstn {A} (n : nat) (l : list A) x : In x (firstn n l) -> In x l.
Proof.
  intros H. rewrite <- (firstn_skipn n l). apply in_or_app. now left.
Qed.

Lemma In_skipn {A} (n : nat) (l : list A) x : In x (skipn n l) -> In x l.
Proof.
  intros H. rewrite <- (firstn_skipn n l). apply in_or_app. now right.
Qed.

Lemma NoDup_firstn {A} (n : nat) (l : list A) : NoDup l -> NoDup (firstn n l).
Proof.
  intros H. rewrite <- (firstn_skipn n l) in H. eapply NoDup_app_remove_r; eauto.
Qed.

Lemma In_py_slice {A} (l : list A) lo hi x : In x (Keras.py_slice l lo hi) -> In x l.
Proof.
  unfold Keras.py_slice. intros H. apply In_firstn in H. eapply In_skipn; eauto.
Qed.

Section KerasProperties.

Context {rs : RandomState}.

(** X11 -- for a positive batch size and any non-negative index, in range or
    not, the window of a batch is the slice of [indices_] clamped to its end:
    a full window while rows remain, the shorter tail at the end, and the
    empty window beyond. *)
Theorem window_is_clamped_slice (o : Keras.BalancedBatchGenerator) (index : Z) :
  (0 < Keras.batch_size o)%Z ->
  (0 <= index)%Z ->
  let b := Z.to_nat (Keras.batch_size o) in
  let lo := (Z.to_nat index * b)%nat in
  Keras.window o index = firstn b (skipn lo (Keras.indices_ o)) /\
  length (Keras.window o index) = Nat.min b (length (Keras.indices_ o) - lo).
Proof.
  intros Hb Hi b lo.
  assert (E : Keras.window o index = firstn b (skipn lo (Keras.indices_ o))).
  { unfold Keras.window, Keras.py_slice, Keras.slice_bound.
    set (l := Keras.indices_ o). set (n := Z.of_nat (length l)).
    assert (Hlo : Z.of_nat lo = (index * Keras.batch_size o)%Z)
      by (unfold lo, b; rewrite Nat2Z.inj_mul, !Z2Nat.id; lia).
    destruct (Z.ltb_spec (index * Keras.batch_size o) 0); [nia|].
    destruct (Z.ltb_spec ((index + 1) * Keras.batch_size o) 0); [nia|].
    destruct (Z.le_gt_cases n (index * Keras.batch_size o)) as [Hge|Hlt].
    - rewrite (Z.min_r (index * Keras.batch_size o) n),
        (Z.min_r ((index + 1) * Keras.batch_size o) n) by nia.
      replace (skipn (Z.to_nat n) l) with (@nil nat)
        by (symmetry; apply skipn_all2; unfold n; lia).
      replace (skipn lo l) with (@nil nat)
        by (symmetry; apply skipn_all2; unfold n in *; lia).
      now rewrite !firstn_nil.
    - rewrite (Z.min_l (index * Keras.batch_size o)) by lia.
      replace (Z.to_nat (index * Keras.batch_size o)) with lo by lia.
      apply firstn_firstn_skipn_all. unfold n in *. unfold b. lia. }
  split; [exact E|]. rewrite E, length_firstn, length_skipn. reflexivity.
Qed.

(** X12 -- a negative index does not wrap around: for a positive batch size
    the window of batch [-1] is empty, and without sample weights the request
    returns an empty batch. *)
Theorem batch_minus_one_is_empty (w : Keras.BBG) :
  (0 < Keras.batch_size (self w))%Z ->
  Keras.window (self w) (-1) = [] /\
  (Keras.sample_weight (self w) = None ->
   exists Xb yb,
     Keras.__getitem__ (-1) w = (inr (Xb, yb, None), w) /\
     Keras.items Xb = [] /\ Keras.items yb = []).
Proof.
  intros Hb.
  assert (E : Keras.window (self w) (-1) = []).
  { unfold Keras.window, Keras.py_slice, Keras.slice_bound.
    set (n := Z.of_nat (length (Keras.indices_ (self w)))).
    destruct (Z.ltb_spec (-1 * Keras.batch_size (self w)) 0); [|lia].
    replace ((-1 + 1) * Keras.batch_size (self w))%Z with 0%Z by lia.
    cbn [Z.ltb Z.compare]. rewrite Z.min_l by (unfold n; lia).
    replace (Z.to_nat (0 - Z.max (-1 * Keras.batch_size (self w) + n) 0)) with 0%nat
      by lia.
    reflexivity. }
  split; [exact E|]. intros Hsw.
  unfold Keras.__getitem__, bind, gets, lift_exn, ret, Keras.safe_indexing.
  rewrite E, Hsw. cbn [_safe_indexing]. do 2 eexists. split; [reflexivity|].
  unfold Keras.densify. split; [destruct (_ && _)|destruct (Keras.issparse _ && _)];
    reflexivity.
Qed.

(** What the constructor computes, step by step. *)
Lemma init_unfold (RUS : Keras.Sampler) Xa ya sw smp bs sp arg (w0 : Keras.BBG) :
  Keras.__init__ RUS Xa ya sw smp bs sp arg w0 =
  let r := ref_of arg in
  let w1 := seeded arg (mkWorld (heap w0) (Keras.mkBBG Xa ya sw smp bs sp arg None [])) in
  match match smp with
        | None => inr RUS
        | Some s => if Keras.has_return_indices s then inr s
                    else inl ValueError_return_indices
        end with
  | inl e => (inl e, w1)
  | inr s =>
      let res := Keras.fit_sample s (read_rs r (heap w1)) Xa ya in
      let w2 := mkWorld (write_rs r (snd res) (heap w1)) (Keras.set_sampler_ s (self w1)) in
      match fst res with
      | inl e => (inl e, w2)
      | inr indices =>
          let sh := rs_shuffle (snd res) indices in
          (inr tt, mkWorld (write_rs r (snd sh) (heap w2))
                     (Keras.set_indices_ (fst sh)
                        (Keras.set_indices_ indices (self w2))))
      end
  end.
Proof.
  unfold Keras.__init__. unfold bind at 1. unfold update_self at 1, modify at 1.
  unfold Keras._sample. unfold bind at 1, gets at 1.
  cbn [self Keras.random_state Keras.sampler Keras.X Keras.y].
  unfold bind at 1. rewrite check_random_state_eq.
  cbv zeta. set (w1 := seeded arg _).
  unfold bind at 1.
  destruct smp as [s|]; [destruct (Keras.has_return_indices s)|];
    try reflexivity.
  all: unfold ret at 1; unfold bind at 1; unfold update_self at 1, modify at 1;
    unfold bind at 1; rewrite draw_eq; cbn [heap self];
    unfold bind at 1, lift_exn at 1;
    match goal with |- context [Keras.fit_sample ?s ?g ?a1 ?a2] =>
      destruct (Keras.fit_sample s g a1 a2) as [[e|indices] g1] end;
    cbn [fst snd]; try reflexivity;
    unfold bind at 1; unfold update_self at 1, modify at 1;
    unfold bind at 1; rewrite draw_eq; cbn [heap self];
    rewrite read_write_rs; reflexivity.
Qed.

End KerasProperties.

Lemma windows_concat {rs : RandomState} (o : Keras.BalancedBatchGenerator) :
  (0 < Keras.batch_size o)%Z ->
  concat (map (fun i => Keras.window o (Z.of_nat i))
              (seq 0 (Z.to_nat (Z.of_nat (length (Keras.indices_ o)) / Keras.batch_size o))))
  = firstn (Z.to_nat (Keras.batch_size o
                      * (Z.of_nat (length (Keras.indices_ o)) / Keras.batch_size o)))
           (Keras.indices_ o).
Proof.
  intros Hb. set (b := Keras.batch_size o) in *.
  set (n := Z.of_nat (length (Keras.indices_ o))).
  assert (Hq : (0 <= n / b)%Z) by (apply Z.div_pos; unfold n; lia).
  rewrite (map_ext_in _ (fun i => firstn (Z.to_nat b)
                                    (skipn (i * Z.to_nat b) (Keras.indices_ o)))).
  - rewrite concat_windows. f_equal. rewrite <- Z2Nat.inj_mul by lia. f_equal. lia.
  - intros i Hin. apply in_seq in Hin.
    destruct (@window_valid rs o (Z.of_nat i) Hb) as [E _]; [fold n b; lia|].
    now rewrite E, Nat2Z.id.
Qed.

Section KerasConstructionProperties.

Context {rs : RandomState} {laws : RandomStateLaws rs}.

(** X13 -- a generator that was constructed holds a permutation of the
    indices its sampler returned -- the default [RandomUnderSampler] when no
    sampler was given, else the given sampler, which has [return_indices] --
    so every index of every batch was selected by the sampler, and indices
    selected once stay without duplicate. *)
Theorem batches_come_from_the_sampler
    (RUS : Keras.Sampler) Xa ya sw smp bs sp arg (w0 w' : Keras.BBG) :
  Keras.__init__ RUS Xa ya sw smp bs sp arg w0 = (inr tt, w') ->
  exists s indices g1,
    Keras.sampler_ (self w') = Some s /\
    match smp with
    | None => s = RUS
    | Some s0 => s = s0 /\ Keras.has_return_indices s0 = true
    end /\
    Keras.fit_sample s (read_rs (ref_of arg) (heap (seeded arg w0))) Xa ya
      = (inr indices, g1) /\
    Permutation indices (Keras.indices_ (self w')) /\
    (forall index i, In i (Keras.window (self w') index) -> In i indices) /\
    (NoDup indices -> NoDup (Keras.indices_ (self w'))).
Proof.
  rewrite init_unfold. cbv zeta.
  set (w1 := seeded arg (mkWorld (heap w0) (Keras.mkBBG Xa ya sw smp bs sp arg None []))).
  assert (Hh : read_rs (ref_of arg) (heap w1) = read_rs (ref_of arg) (heap (seeded arg w0)))
    by (unfold w1; destruct arg; reflexivity).
  rewrite Hh.
  assert (Hcore : forall s,
    match fst (Keras.fit_sample s (read_rs (ref_of arg) (heap (seeded arg w0))) Xa ya) with
    | inl e =>
        (inl e,
         mkWorld (write_rs (ref_of arg)
                    (snd (Keras.fit_sample s (read_rs (ref_of arg) (heap (seeded arg w0))) Xa ya))
                    (heap w1))
                 (Keras.set_sampler_ s (self w1)))
    | inr indices =>
        (inr tt,
         mkWorld
           (write_rs (ref_of arg)
              (snd (rs_shuffle
                      (snd (Keras.fit_sample s (read_rs (ref_of arg) (heap (seeded arg w0))) Xa ya))
                      indices))
              (heap (mkWorld
                       (write_rs (ref_of arg)
                          (snd (Keras.fit_sample s
                                  (read_rs (ref_of arg) (heap (seeded arg w0))) Xa ya))
                          (heap w1))
                       (Keras.set_sampler_ s (self w1)))))
           (Keras.set_indices_
              (fst (rs_shuffle
                      (snd (Keras.fit_sample s
                              (read_rs (ref_of arg) (heap (seeded arg w0))) Xa ya))
                      indices))
              (Keras.set_indices_ indices
                 (self (mkWorld
                          (write_rs (ref_of arg)
                             (snd (Keras.fit_sample s
                                     (read_rs (ref_of arg) (heap (seeded arg w0))) Xa ya))
                             (heap w1))
                          (Keras.set_sampler_ s (self w1)))))))
    end = (inr tt, w') ->
    exists indices g1,
      Keras.sampler_ (self w') = Some s /\
      Keras.fit_sample s (read_rs (ref_of arg) (heap (seeded arg w0))) Xa ya
        = (inr indices, g1) /\
      Permutation indices (Keras.indices_ (self w')) /\
      (forall index i, In i (Keras.window (self w') index) -> In i indices) /\
      (NoDup indices -> NoDup (Keras.indices_ (self w')))).
  { intros s.
    destruct (Keras.fit_sample s (read_rs (ref_of arg) (heap (seeded arg w0))) Xa ya)
      as [[e|indices] g1]; cbn [fst snd]; [discriminate|].
    intros H; inversion H; subst w'; clear H. cbn.
    pose proof (shuffle_Permutation g1 indices) as HP.
    exists indices, g1. split; [reflexivity|]. split; [reflexivity|].
    split; [exact HP|]. split.
    - intros index i Hi. apply In_py_slice in Hi.
      eapply Permutation_in; [apply Permutation_sym; exact HP|exact Hi].
    - intros Hnd. eapply Permutation_NoDup; eauto. }
  destruct smp as [s0|].
  - destruct (Keras.has_return_indices s0) eqn:Er; [|discriminate].
    intros H. destruct (Hcore s0 H) as (indices & g1 & H1 & H2 & H3 & H4 & H5).
    exists s0, indices, g1. auto 10.
  - intros H. destruct (Hcore RUS H) as (indices & g1 & H1 & H2 & H3 & H4 & H5).
    exists RUS, indices, g1. auto 10.
Qed.

End KerasConstructionProperties.

Section KerasBatchProperties.

Context {rs : RandomState}.

(** X14 -- when [indices_] has no duplicate and the batch size is positive,
    no row index occurs twice across the batches of the valid indices, nor
    within one batch. *)
Theorem no_row_twice_across_batches (o : Keras.BalancedBatchGenerator) :
  (0 < Keras.batch_size o)%Z ->
  NoDup (Keras.indices_ o) ->
  NoDup (concat (map (fun i => Keras.window o (Z.of_nat i))
                     (seq 0 (Z.to_nat (Z.of_nat (length (Keras.indices_ o))
                                       / Keras.batch_size o))))).
Proof.
  intros Hb Hnd. rewrite windows_concat by assumption. now apply NoDup_firstn.
Qed.

(** X15 -- a sampler without the attribute [return_indices] is rejected by
    the constructor before anything is sampled: [ValueError] is raised, no
    existing generator advances, and the object is left without indices and
    without [sampler_]. *)
Theorem sampler_without_return_indices_rejected
    (RUS s : Keras.Sampler) Xa ya sw bs sp arg (w0 : Keras.BBG) :
  Keras.has_return_indices s = false ->
  exists w1,
    Keras.__init__ RUS Xa ya sw (Some s) bs sp arg w0
      = (inl ValueError_return_indices, w1) /\
    Keras.indices_ (self w1) = [] /\
    Keras.sampler_ (self w1) = None /\
    np_random (heap w1) = np_random (heap w0) /\
    caller_rs (heap w1) = caller_rs (heap w0).
Proof.
  intros Hr. rewrite init_unfold, Hr. cbv zeta. eexists. split; [reflexivity|].
  destruct arg; cbn; auto.
Qed.


End KerasBatchProperties.

(** * The fit of the under-sampling base classes *)

Section BaseFit.

Import UnderSamplingBase.

Variables Data Target Hash RatioArg RatioDict : Type.
Variable check_X_y : Data -> Target -> exn + Data * Target.
Variable check_target_type : Target -> exn + Target.
Variable hash_X_y : Data -> Target -> Hash * Hash.
Variable check_ratio : RatioArg -> Target -> sampling_type -> exn + RatioDict.


End BaseFit.


(** * Runs of the added properties on the example data *)

Lemma sample_indices_index_the_output_witness :
  exists X' y' w' si,
    _fit_resample Example.X0 Example.y0 Example.w0 = (inr (X', y'), w') /\
    sample_indices_ (self w') = Some si /\
    _safe_indexing Example.y0 si = inr y' /\
    (smoothed_bootstrap (self Example.w0) = false ->
     _safe_indexing (rows Example.X0) si = inr (rows X')).
Proof.
  apply (@sample_indices_index_the_output LCG.random_state LCGFacts.laws). reflexivity.
Defined.

Lemma class_counts_after_resampling_witness :
  exists X' y' w',
    _fit_resample Example.X0 Example.y0 Example.w0 = (inr (X', y'), w') /\
    length (rows X') = 4%nat /\
    count_occ Z.eq_dec y' 1%Z = 2%nat /\
    count_occ Z.eq_dec y' 0%Z = 2%nat.
Proof.
  destruct (@class_counts_after_resampling LCG.random_state LCGFacts.laws
              Example.X0 Example.y0 Example.w0 eq_refl)
    as (X' & y' & w' & E & HL & HC & _).
  exists X', y', w'. split; [exact E|]. split; [exact HL|].
  split; [exact (HC 1%Z)|exact (HC 0%Z)].
Defined.

Lemma output_keeps_format_and_width_witness :
  exists X' y' w',
    _fit_resample Example.X0 Example.y0 Example.w0_smoothed = (inr (X', y'), w') /\
    format X' = Dense /\ n_cols X' = 1%nat /\ well_formed X'.
Proof.
  apply (@output_keeps_format_and_width LCG.random_state LCGFacts.laws
           Example.X0 Example.y0 Example.w0_smoothed);
    [reflexivity|repeat constructor].
Defined.


Lemma legacy_sample_row_aligned_witness :
  exists X' y' w' idx,
    Legacy._sample Example.X0 Example.y0 Example.legacy0 = (inr (X', y'), w') /\
    _safe_indexing (rows Example.X0) (seq 0 3 ++ idx) = inr (rows X') /\
    _safe_indexing Example.y0 (seq 0 3 ++ idx) = inr y' /\
    count_occ Z.eq_dec y' 1%Z = 2%nat.
Proof.
  destruct (@legacy_sample_row_aligned LCG.random_state LCGFacts.laws
              Example.X0 Example.y0 Example.legacy0 eq_refl)
    as (X' & y' & w' & idx & E & HX & Hy & HC).
  exists X', y', w', idx. split; [exact E|]. split; [exact HX|].
  split; [exact Hy|exact (HC 1%Z)].
Defined.


Lemma plain_run_returns_iff_witness :
  (exists out w', _fit_resample Example.X0 Example.y0 Example.w0 = (inr out, w')) <->
  Forall (fun ck : Z * nat => snd ck = 0%nat \/ In (fst ck) Example.y0)
         (sampling_strategy_ (self Example.w0)).
Proof.
  apply (@plain_run_returns_iff LCG.random_state LCGFacts.laws); reflexivity.
Defined.

Lemma window_is_clamped_slice_witness :
  Keras.window (self Example.gen95) 9 = [90; 91; 92; 93; 94]%nat /\
  length (Keras.window (self Example.gen95) 9) = 5%nat.
Proof.
  exact (@window_is_clamped_slice LCG.random_state (self Example.gen95) 9%Z
           eq_refl (fun H => match H with eq_refl => I end)).
Defined.

Lemma batch_minus_one_is_empty_witness :
  Keras.window (self Example.gen4) (-1) = [] /\
  (Keras.sample_weight (self Example.gen4) = None ->
   exists Xb yb,
     Keras.__getitem__ (-1) Example.gen4 = (inr (Xb, yb, None), Example.gen4) /\
     Keras.items Xb = [] /\ Keras.items yb = []).
Proof.
  apply (@batch_minus_one_is_empty LCG.random_state Example.gen4). reflexivity.
Defined.

Lemma no_row_twice_across_batches_witness :
  NoDup (concat (map (fun i => Keras.window (self Example.gen4) (Z.of_nat i))
                     (seq 0 2))).
Proof.
  apply (@no_row_twice_across_batches LCG.random_state (self Example.gen4)).
  - reflexivity.
  - repeat constructor; simpl; intuition discriminate.
Defined.

Lemma sampler_without_return_indices_rejected_witness :
  exists w1,
    Keras.__init__ Example.every_row (Keras.mkArray false [[1%R]]) (Keras.mkArray false [[0%R]])
      None (Some (Keras.mkSampler false (Keras.fit_sample Example.every_row)))
      2 false (RS_int 42) Example.gen4
      = (inl ValueError_return_indices, w1) /\
    Keras.indices_ (self w1) = [] /\
    Keras.sampler_ (self w1) = None /\
    np_random (heap w1) = np_random (heap Example.gen4) /\
    caller_rs (heap w1) = caller_rs (heap Example.gen4).
Proof.
  apply (@sampler_without_return_indices_rejected LCG.random_state). reflexivity.
Defined.

Lemma batches_come_from_the_sampler_witness :
  let w' := snd (Keras.__init__ Example.every_row
                   (Keras.X (self Example.gen4)) (Keras.y (self Example.gen4))
                   None None 2 false (RS_int 42) Example.gen95) in
  Keras.sampler_ (self w') = Some Example.every_row /\
  Permutation [0; 1; 2; 3]%nat (Keras.indices_ (self w')).
Proof.
  intros w'.
  destruct (@batches_come_from_the_sampler LCG.random_state LCGFacts.laws
              Example.every_row
              (Keras.X (self Example.gen4)) (Keras.y (self Example.gen4))
              None None 2%Z false (RS_int 42) Example.gen95 w' eq_refl)
    as (s & indices & g1 & Hs & Hsm & Hfit & HP & _).
  subst s. split; [exact Hs|].
  inversion Hfit; subst indices. exact HP.
Defined.

